(** * phone_number_finder.py: the extraction and selection engine

    A shallow embedding of the text pipeline of [PhoneNumberFinder]
    (pattern library, [clean_phone_number], [extract_phone_from_text],
    [select_best_phone]), of the crawl ([search_contact_pages],
    [scrape_website]), of the result table written by [process_csv] /
    [save_results] and of the summary of [main].

    Text is modelled as [string] over the code points 0..255 (Latin-1);
    on that range the character classes and the case folding below are
    the ones Python's [str] and [re] use. *)

From Stdlib Require Import Ascii String List Bool Arith NArith Lia Permutation.
Import ListNotations.
Open Scope string_scope.
Open Scope list_scope.

(* ================================================================== *)
(** ** Python [str] primitives used by the source                      *)
(* ================================================================== *)

Module Py.

(** [str.isspace] on one character: TAB..CR, FS..US, space, NEL, NBSP. *)
Definition isspace (c : ascii) : bool :=
  let n := nat_of_ascii c in
  (((9 <=? n) && (n <=? 13)) || ((28 <=? n) && (n <=? 32))
   || (n =? 133) || (n =? 160))%nat.

(** decimal digits, ['0'..'9'] *)
Definition isdigit (c : ascii) : bool :=
  let n := nat_of_ascii c in ((48 <=? n) && (n <=? 57))%nat.

(** lower-case mapping of one character ([A-Z] and the Latin-1 capitals) *)
Definition lower_char (c : ascii) : ascii :=
  let n := nat_of_ascii c in
  if (((65 <=? n) && (n <=? 90))
      || ((192 <=? n) && (n <=? 222) && negb (n =? 215)))%nat
  then ascii_of_nat (n + 32) else c.

(** [s.lower()] *)
Fixpoint lower (s : string) : string :=
  match s with
  | EmptyString => EmptyString
  | String c s' => String (lower_char c) (lower s')
  end.

(** [s.lstrip()] *)
Fixpoint lstrip (s : string) : string :=
  match s with
  | EmptyString => EmptyString
  | String c s' => if isspace c then lstrip s' else s
  end.

(** [s.rstrip()] *)
Fixpoint rstrip (s : string) : string :=
  match s with
  | EmptyString => EmptyString
  | String c s' =>
      match rstrip s' with
      | EmptyString => if isspace c then EmptyString else String c EmptyString
      | r => String c r
      end
  end.

(** [s.strip()] *)
Definition strip (s : string) : string := rstrip (lstrip s).

(** [s.startswith(p)] *)
Definition startswith (s p : string) : bool := String.prefix p s.

(** [sub in s] *)
Fixpoint contains (sub s : string) : bool :=
  String.prefix sub s ||
  match s with
  | EmptyString => false
  | String _ s' => contains sub s'
  end.

(** [s.replace(old, new)] for a non-empty [old] (both uses in the
    source pass a constant): occurrences are replaced from left to
    right, [skip] characters of the last one still being passed over. *)
Fixpoint replace_from (old new : string) (skip : nat) (s : string) : string :=
  match s with
  | EmptyString => EmptyString
  | String c s' =>
      match skip with
      | S n => replace_from old new n s'
      | O =>
          if String.prefix old s
          then (new ++ replace_from old new (pred (String.length old)) s')%string
          else String c (replace_from old new 0 s')
      end
  end.

Definition replace (s old new : string) : string := replace_from old new 0 s.

(** truthiness of a [str] *)
Definition truthy (s : string) : bool :=
  match s with EmptyString => false | _ => true end.

(** [x in l] for a list of [str] *)
Definition mem (x : string) (l : list string) : bool :=
  existsb (String.eqb x) l.

End Py.

(* ================================================================== *)
(** ** The fragment of Python's [re] the source relies on              *)
(* ================================================================== *)

Module Re.

(** One-character matchers: a literal, [\d], [\s], a bracket set
    (union of members), a negated set. *)
Inductive charset : Type :=
| Chr (c : ascii)
| Digit
| Space
| Union (a b : charset)
| Neg (a : charset).

(** Patterns.  Every quantifier of the source applies to a single
    character matcher, so repetition carries a [charset]:
    [Rep cs lo hi] is the greedy [cs{lo,hi}], [hi = None] is
    unbounded.  [Cap] is a capturing group (the source uses at most
    one per pattern), plain grouping [(?:...)] needs no node. *)
Inductive regex : Type :=
| Eps
| Atom (cs : charset)
| Rep (cs : charset) (lo : nat) (hi : option nat)
| Seq (r1 r2 : regex)
| Alt (r1 r2 : regex)
| Cap (r : regex).

(** Membership of a character; [ic] is [re.IGNORECASE]. *)
Fixpoint in_charset (ic : bool) (cs : charset) (c : ascii) : bool :=
  match cs with
  | Chr x => if ic then Ascii.eqb (Py.lower_char c) (Py.lower_char x)
             else Ascii.eqb c x
  | Digit => Py.isdigit c
  | Space => Py.isspace c
  | Union a b => in_charset ic a c || in_charset ic b c
  | Neg a => negb (in_charset ic a c)
  end.

(** The text between the start [s] of an attempt and the position
    [s1] it reached. *)
Definition consumed (s s1 : string) : string :=
  substring 0 (String.length s - String.length s1) s.

Section Matcher.
Variable ic : bool.

(** A match attempt yields the text of group 1 (if the group took
    part) and the rest of the subject. *)
Definition outcome : Type := option (option string * string).

(** Greedy bounded repetition with backtracking: take one more
    character when allowed, and fall back to stopping here when
    the continuation fails further on. *)
Fixpoint rep (cs : charset) (lo : nat) (hi : option nat) (s : string)
         (k : string -> outcome) : outcome :=
  let stop := if (lo =? 0)%nat then k s else None in
  match s with
  | EmptyString => stop
  | String c s' =>
      let more := match hi with Some 0 => false | _ => true end in
      if more && in_charset ic cs c then
        match rep cs (pred lo) (option_map pred hi) s' k with
        | Some x => Some x
        | None => stop
        end
      else stop
  end.

(** Backtracking matcher in continuation-passing style: the
    leftmost alternative and the longest repetition are tried
    first, as [re] does. *)
Fixpoint run (r : regex) (g : option string) (s : string)
         (k : option string -> string -> outcome) : outcome :=
  match r with
  | Eps => k g s
  | Atom cs =>
      match s with
      | String c s' => if in_charset ic cs c then k g s' else None
      | EmptyString => None
      end
  | Rep cs lo hi => rep cs lo hi s (k g)
  | Seq r1 r2 => run r1 g s (fun g' s' => run r2 g' s' k)
  | Alt r1 r2 =>
      match run r1 g s k with
      | Some x => Some x
      | None => run r2 g s k
      end
  | Cap r1 => run r1 g s (fun _ s' => k (Some (consumed s s')) s')
  end.

(** One attempt anchored at the start of [s]; with [must_advance]
    an empty match is refused. *)
Definition attempt (r : regex) (must_advance : bool) (s : string) : outcome :=
  run r None s
      (fun g s' =>
         if must_advance && (String.length s' =? String.length s)%nat
         then None else Some (g, s')).

(** A scanned subject: characters no match covers, and matches. *)
Inductive piece : Type :=
| Plain (c : ascii)
| Hit (whole : string) (grp : option string).

(** Left-to-right scan for non-overlapping matches, as [findall]
    and [sub] do.  [skip] counts the characters still covered by
    the last match.  After an empty match the same position is
    searched again for a match that advances. *)
Fixpoint scan (r : regex) (skip : nat) (s : string) : list piece :=
  match skip with
  | S n =>
      match s with
      | String _ s' => scan r n s'
      | EmptyString => []
      end
  | O =>
      match attempt r false s with
      | None =>
          match s with
          | String c s' => Plain c :: scan r 0 s'
          | EmptyString => []
          end
      | Some (g, s1) =>
          let w := consumed s s1 in
          match String.length w, s with
          | S n, String _ s' => Hit w g :: scan r n s'
          | _, EmptyString => [Hit w g]
          | O, String c s' =>
              Hit w g ::
              match attempt r true s with
              | Some (g2, s2) =>
                  Hit (consumed s s2) g2
                      :: scan r (pred (String.length (consumed s s2))) s'
              | None => Plain c :: scan r 0 s'
              end
          end
      end
  end.
End Matcher.

(** Does the pattern contain a capturing group? *)
Fixpoint has_cap (r : regex) : bool :=
  match r with
  | Seq a b | Alt a b => has_cap a || has_cap b
  | Cap _ => true
  | _ => false
  end.

(** [re.match(r, s)] as a truth value. *)
Definition matches (ic : bool) (r : regex) (s : string) : bool :=
  match attempt ic r false s with Some _ => true | None => false end.

(** [re.findall(r, s)]: group 1 of each match when the pattern has a
    group (the empty string when the group did not take part), the
    whole match otherwise. *)
Definition findall (ic : bool) (r : regex) (s : string) : list string :=
  flat_map
    (fun p : piece =>
       match p with
       | Plain _ => []
       | Hit w g =>
           [if has_cap r then match g with Some x => x | None => "" end
            else w]
       end)
    (scan ic r 0 s).

(** The subject rebuilt with every match replaced by [repl]. *)
Definition render (repl : string) (ps : list piece) : string :=
  fold_right
    (fun p out =>
       match p with
       | Plain c => String c out
       | Hit _ _ => (repl ++ out)%string
       end)
    EmptyString ps.

(** [re.sub(r, repl, s)] for a replacement without back-references. *)
Definition sub (ic : bool) (r : regex) (repl s : string) : string :=
  render repl (scan ic r 0 s).

(** Pattern builders. *)
Fixpoint lit (s : string) : regex :=
  match s with
  | EmptyString => Eps
  | String c EmptyString => Atom (Chr c)
  | String c s' => Seq (Atom (Chr c)) (lit s')
  end.

Fixpoint cat (rs : list regex) : regex :=
  match rs with
  | [] => Eps
  | [r] => r
  | r :: rs' => Seq r (cat rs')
  end.

Fixpoint alt (rs : list regex) : regex :=
  match rs with
  | [] => Eps
  | [r] => r
  | r :: rs' => Alt r (alt rs')
  end.

End Re.

(* ================================================================== *)
(** ** [PhoneNumberFinder]: the pattern library                        *)
(* ================================================================== *)

(** [\d{lo,hi}] *)
Definition digits (lo hi : nat) : Re.regex := Re.Rep Re.Digit lo (Some hi).

(** [\s*] *)
Definition sp : Re.regex := Re.Rep Re.Space 0 None.

(** [[\s\-]*] *)
Definition sep : Re.regex := Re.Rep (Re.Union Re.Space (Re.Chr "-")) 0 None.

(** [self.phone_patterns], in source order. *)
Definition phone_patterns : list Re.regex :=
  [ (* \+49[\s\-]*\d{2,4}[\s\-]*\d{2,4}[\s\-]*\d{1,4}[\s\-]*\d{1,4} *)
    Re.cat [Re.lit "+49"; sep; digits 2 4; sep; digits 2 4; sep; digits 1 4;
            sep; digits 1 4];
    (* \+49\s*\(\d{2,4}\)\s*\d{2,4}[\s\-]*\d{1,4}[\s\-]*\d{1,4} *)
    Re.cat [Re.lit "+49"; sp; Re.lit "("; digits 2 4; Re.lit ")"; sp;
            digits 2 4; sep; digits 1 4; sep; digits 1 4];
    (* \+49\s*\d{2,4}\s*\d{2,4}\s*\d{1,4}[\s\-]*\d{1,4} *)
    Re.cat [Re.lit "+49"; sp; digits 2 4; sp; digits 2 4; sp; digits 1 4;
            sep; digits 1 4];
    (* 0\d{2,4}[\s\-]*\d{2,4}[\s\-]*\d{1,4}[\s\-]*\d{1,4} *)
    Re.cat [Re.lit "0"; digits 2 4; sep; digits 2 4; sep; digits 1 4;
            sep; digits 1 4];
    (* 0\d{2,4}\s*\d{2,4}\s*\d{1,4}[\s\-]*\d{1,4} *)
    Re.cat [Re.lit "0"; digits 2 4; sp; digits 2 4; sp; digits 1 4;
            sep; digits 1 4];
    (* 0\d{2,4}[\s\-]*\d{2,4}[\s\-]*\d{1,4} *)
    Re.cat [Re.lit "0"; digits 2 4; sep; digits 2 4; sep; digits 1 4];
    (* \+49\s*\(\d{2,4}\)\s*\d{2,4}\s*\d{1,4} *)
    Re.cat [Re.lit "+49"; sp; Re.lit "("; digits 2 4; Re.lit ")"; sp;
            digits 2 4; sp; digits 1 4];
    (* \(\d{2,4}\)\s*\d{2,4}\s*\d{1,4} *)
    Re.cat [Re.lit "("; digits 2 4; Re.lit ")"; sp; digits 2 4; sp;
            digits 1 4];
    (* \d{2,4}\s*\/\s*\d{2,4}\s*\d{1,4} *)
    Re.cat [digits 2 4; sp; Re.lit "/"; sp; digits 2 4; sp; digits 1 4];
    (* 0800[\s\-]*\d{3,4}[\s\-]*\d{3,4} *)
    Re.cat [Re.lit "0800"; sep; digits 3 4; sep; digits 3 4];
    (* \+49\s*\d{2,4}\s*\d{3,4}\s*\d{3,4} *)
    Re.cat [Re.lit "+49"; sp; digits 2 4; sp; digits 3 4; sp; digits 3 4];
    (* 0\d{2,4}\s*\d{3,4}\s*\d{3,4} *)
    Re.cat [Re.lit "0"; digits 2 4; sp; digits 3 4; sp; digits 3 4];
    (* \+49[\s\-]*\d{2,4}[\s\-]*\d{3,4}[\s\-]*\d{3,4} *)
    Re.cat [Re.lit "+49"; sep; digits 2 4; sep; digits 3 4; sep; digits 3 4];
    (* 0\d{2,4}[\s\-]*\d{3,4}[\s\-]*\d{3,4} *)
    Re.cat [Re.lit "0"; digits 2 4; sep; digits 3 4; sep; digits 3 4];
    (* 01[567]\d[\s\-]*\d{3,4}[\s\-]*\d{3,4} *)
    Re.cat [Re.lit "01";
            Re.Atom (Re.Union (Re.Chr "5") (Re.Union (Re.Chr "6") (Re.Chr "7")));
            Re.Atom Re.Digit; sep; digits 3 4; sep; digits 3 4] ].

(* ================================================================== *)
(** ** [clean_phone_number]                                            *)
(* ================================================================== *)

(** [(tel:|telefon:|phone:|tel\.|telefon\.|phone\.)], used with
    [re.IGNORECASE] *)
Definition label_re : Re.regex :=
  Re.Cap (Re.alt [Re.lit "tel:"; Re.lit "telefon:"; Re.lit "phone:";
                  Re.lit "tel."; Re.lit "telefon."; Re.lit "phone."]).

(** [\+49\s*\(0\)] *)
Definition trunk_re : Re.regex := Re.cat [Re.lit "+49"; sp; Re.lit "(0)"].

(** [\s+] *)
Definition ws_re : Re.regex := Re.Rep Re.Space 1 None.

(** The rewriting steps of [clean_phone_number]: drop the labels, trim,
    turn [+49(0)] into [+49], collapse white space. *)
Definition normalize_text (phone : string) : string :=
  let phone := Re.sub true label_re "" phone in
  let phone := Py.strip phone in
  let phone := Re.sub false trunk_re "+49" phone in
  Re.sub false ws_re " " phone.

(** The validation loop: some pattern matches at the start of [phone]. *)
Definition looks_german (phone : string) : bool :=
  existsb (fun pattern => Re.matches false pattern phone) phone_patterns.

(** [clean_phone_number(phone)]; the argument and the result are
    [Optional[str]]. *)
Definition clean_phone_number (phone : option string) : option string :=
  match phone with
  | None => None
  | Some p =>
      if negb (Py.truthy p) then None
      else
        let p' := normalize_text p in
        if looks_german p' then Some p' else None
  end.

(* ================================================================== *)
(** ** [extract_phone_from_text]                                       *)
(* ================================================================== *)

(** [[+\d\s\-\(\)]] *)
Definition phone_char : Re.charset :=
  Re.Union (Re.Chr "+")
    (Re.Union Re.Digit
       (Re.Union Re.Space
          (Re.Union (Re.Chr "-") (Re.Union (Re.Chr "(") (Re.Chr ")"))))).

(** [\s*[:\.]?\s*([+\d\s\-\(\)]+)], the tail the first two label rules share *)
Definition labelled_tail : list Re.regex :=
  [sp; Re.Rep (Re.Union (Re.Chr ":") (Re.Chr ".")) 0 (Some 1); sp;
   Re.Cap (Re.Rep phone_char 1 None)].

(** [prefix_patterns], in source order; all used with [re.IGNORECASE]. *)
Definition prefix_patterns : list Re.regex :=
  [ (* (?:fon|tel|telefon|phone|tel\.|telefon\.|phone\.)\s*[:\.]?\s*([+\d\s\-\(\)]+) *)
    Re.cat (Re.alt [Re.lit "fon"; Re.lit "tel"; Re.lit "telefon";
                    Re.lit "phone"; Re.lit "tel."; Re.lit "telefon.";
                    Re.lit "phone."] :: labelled_tail);
    (* (?:Telefon|Telefonnummer|Tel\.|Fon\.)\s*[:\.]?\s*([+\d\s\-\(\)]+) *)
    Re.cat (Re.alt [Re.lit "Telefon"; Re.lit "Telefonnummer"; Re.lit "Tel.";
                    Re.lit "Fon."] :: labelled_tail);
    (* (?:Mietverwaltung|WEG-Verwaltung)\s*:\s*Tel\.\s*([+\d\s\-\(\)]+) *)
    Re.cat [Re.alt [Re.lit "Mietverwaltung"; Re.lit "WEG-Verwaltung"]; sp;
            Re.lit ":"; sp; Re.lit "Tel."; sp;
            Re.Cap (Re.Rep phone_char 1 None)] ].

(** [[^\d\s\-\(\)\+]] *)
Definition not_phone_char : Re.regex :=
  Re.Atom
    (Re.Neg
       (Re.Union Re.Digit
          (Re.Union Re.Space
             (Re.Union (Re.Chr "-")
                (Re.Union (Re.Chr "(") (Re.Union (Re.Chr ")") (Re.Chr "+"))))))).

(** First loop: the runs captured after a label, cleaned of foreign
    characters and trimmed; empty ones are dropped. *)
Definition labelled_candidates (text : string) : list string :=
  flat_map
    (fun pattern =>
       flat_map
         (fun m =>
            let phone := Py.strip (Re.sub false not_phone_char "" m) in
            if Py.truthy phone then [phone] else [])
         (Re.findall true pattern text))
    prefix_patterns.

(** Second loop: every match of every pattern of the library. *)
Definition structural_candidates (text : string) : list string :=
  flat_map (fun pattern => Re.findall false pattern text) phone_patterns.

(** One turn of the last loop: [valid_phones] after looking at [phone]. *)
Definition keep_valid (valid_phones : list string) (phone : string) : list string :=
  match clean_phone_number (Some phone) with
  | Some cleaned =>
      if Py.truthy cleaned && negb (Py.mem cleaned valid_phones) then
        if negb (Py.contains "fax" (Py.lower phone))
        then valid_phones ++ [cleaned]
        else valid_phones
      else valid_phones
  | None => valid_phones
  end.

(** [extract_phone_from_text(text)] *)
Definition extract_phone_from_text (text : string) : list string :=
  let phones := labelled_candidates text ++ structural_candidates text in
  fold_left keep_valid phones [].

(* ================================================================== *)
(** ** [select_best_phone]                                             *)
(* ================================================================== *)

(** What a call can do: return a value, or raise an exception.  In
    the selector the only place that could raise is
    [unique_phones[0]] ([IndexError]). *)
Inductive result (A : Type) : Type :=
| Returned (v : A)
| Raised.
Arguments Returned {A} v.
Arguments Raised {A}.

Section Selector.

(** [list(set(phones))]: the enumeration order of a set of strings
    is fixed by the interpreter's string hashing, not by the source. *)
Variable list_of_set : list string -> list string.

(** [select_best_phone(phones)]; the unused [priority_keywords] list
    is left out. *)
Definition select_best_phone (phones : list string) : result (option string) :=
  match phones with
  | [] => Returned None
  | _ =>
      let unique_phones := list_of_set phones in
      match find (fun phone => negb (Py.startswith phone "01")) unique_phones with
      | Some phone => Returned (Some phone)
      | None =>
          match unique_phones with
          | phone :: _ => Returned (Some phone)
          | [] => Raised
          end
      end
  end.

End Selector.

(* ================================================================== *)
(** ** The fragment of Python's [csv] and of text files in use         *)
(* ================================================================== *)

Module Csv.

Definition comma : ascii := ","%char.
Definition dquote : ascii := ascii_of_nat 34.
Definition CR : ascii := ascii_of_nat 13.
Definition LF : ascii := ascii_of_nat 10.

(** *** [csv.writer], dialect [excel], [QUOTE_MINIMAL] *)

(** Characters that force a field into quotes: the delimiter, the
    quote character and the characters of the line terminator. *)
Definition special (c : ascii) : bool :=
  Ascii.eqb c comma || Ascii.eqb c dquote || Ascii.eqb c CR || Ascii.eqb c LF.

Fixpoint needs_quote (f : string) : bool :=
  match f with
  | EmptyString => false
  | String c f' => special c || needs_quote f'
  end.

(** Quote characters are doubled. *)
Fixpoint escape (f : string) : string :=
  match f with
  | EmptyString => EmptyString
  | String c f' =>
      if Ascii.eqb c dquote then String dquote (String dquote (escape f'))
      else String c (escape f')
  end.

Definition quote_field (f : string) : string :=
  if needs_quote f then String dquote (escape f ++ String dquote EmptyString)
  else f.

Fixpoint join_fields (fs : list string) : string :=
  match fs with
  | [] => EmptyString
  | [f] => quote_field f
  | f :: fs' => (quote_field f ++ String comma (join_fields fs'))%string
  end.

(** [writer.writerow(row)]: the text appended to the file.  A row made
    of one empty field is written as a pair of quotes. *)
Definition writerow (row : list string) : string :=
  (match row with
   | [EmptyString] => String dquote (String dquote EmptyString)
   | _ => join_fields row
   end ++ String CR (String LF EmptyString))%string.

(** [writer.writerows(rows)] *)
Fixpoint writerows (rows : list (list string)) : string :=
  match rows with
  | [] => EmptyString
  | row :: rows' => (writerow row ++ writerows rows')%string
  end.

(** *** Reading a text file opened with the default [newline=None] *)

(** Universal newlines: ["\r\n"] and a lone ["\r"] are read as ["\n"]. *)
Fixpoint universal_newlines (s : string) : string :=
  match s with
  | EmptyString => EmptyString
  | String c s' =>
      if Ascii.eqb c CR then
        String LF
          match s' with
          | String d s'' =>
              if Ascii.eqb d LF then universal_newlines s''
              else universal_newlines s'
          | EmptyString => EmptyString
          end
      else String c (universal_newlines s')
  end.

(** *** [csv.reader], dialect [excel] *)

Inductive pstate : Type :=
| START_RECORD
| START_FIELD
| IN_FIELD
| IN_QUOTED_FIELD
| QUOTE_IN_QUOTED_FIELD
| EAT_CRNL.

(** [csv.field_size_limit()], the default. *)
Definition field_size_limit : N := 131072.

(** How the reader comes to its end: the input is exhausted, or
    [csv.Error] is raised. *)
Inductive ending : Type :=
| EndOfFile
| Error.

(** The reader between two characters: its state, the field being
    built and the fields of the record so far. *)
Record parser : Type := {
  state : pstate;
  field : string;
  fields : list string
}.

(** [parse_reset] *)
Definition fresh : parser :=
  {| state := START_RECORD; field := EmptyString; fields := [] |}.

(** [parse_save_field], then go to state [st] *)
Definition save_field (st : pstate) (p : parser) : parser :=
  {| state := st; field := EmptyString; fields := fields p ++ [field p] |}.

(** [parse_add_char], then go to state [st]; [None] is the
    [csv.Error] raised when the field holds [field_size_limit]
    characters already. *)
Definition add_char (st : pstate) (c : ascii) (p : parser) : option parser :=
  if (N.of_nat (String.length (field p)) <? field_size_limit)%N then
    Some {| state := st;
            field := (field p ++ String c EmptyString)%string;
            fields := fields p |}
  else None.

Definition goto (st : pstate) (p : parser) : parser :=
  {| state := st; field := field p; fields := fields p |}.

Definition is_newline (c : ascii) : bool := Ascii.eqb c LF || Ascii.eqb c CR.

(** The state after a line break or the end of the line. *)
Definition after_break (c : option ascii) : pstate :=
  match c with None => START_RECORD | Some _ => EAT_CRNL end.

Definition breaks (c : option ascii) : bool :=
  match c with None => true | Some x => is_newline x end.

Definition is_char (x : ascii) (c : option ascii) : bool :=
  match c with Some y => Ascii.eqb y x | None => false end.

(** [parse_process_char]; [c = None] is the end-of-line signal the
    reader gives after each line, and the result [None] is [csv.Error]. *)
Definition process_char (p : parser) (c : option ascii) : option parser :=
  let start_field :=
    if breaks c then Some (save_field (after_break c) p)
    else if is_char dquote c then Some (goto IN_QUOTED_FIELD p)
    else if is_char comma c then Some (save_field START_FIELD p)
    else match c with
         | Some x => add_char IN_FIELD x p
         | None => Some p
         end in
  match state p with
  | START_RECORD =>
      match c with
      | None => Some p
      | Some x => if is_newline x then Some (goto EAT_CRNL p) else start_field
      end
  | START_FIELD => start_field
  | IN_FIELD =>
      if breaks c then Some (save_field (after_break c) p)
      else if is_char comma c then Some (save_field START_FIELD p)
      else match c with
           | Some x => add_char IN_FIELD x p
           | None => Some p
           end
  | IN_QUOTED_FIELD =>
      match c with
      | None => Some p
      | Some x =>
          if Ascii.eqb x dquote then Some (goto QUOTE_IN_QUOTED_FIELD p)
          else add_char IN_QUOTED_FIELD x p
      end
  | QUOTE_IN_QUOTED_FIELD =>
      if is_char dquote c then add_char IN_QUOTED_FIELD dquote p
      else if is_char comma c then Some (save_field START_FIELD p)
      else if breaks c then Some (save_field (after_break c) p)
      else match c with
           | Some x => add_char IN_FIELD x p
           | None => Some p
           end
  | EAT_CRNL =>
      match c with
      | None => Some (goto START_RECORD p)
      | Some x => if is_newline x then Some p else None
      end
  end.

(** The record the reader hands out when the input ends inside one. *)
Definition at_eof (p : parser) : list (list string) :=
  let pending :=
    negb (String.eqb (field p) EmptyString)
    || match state p with IN_QUOTED_FIELD => true | _ => false end in
  if pending then [fields (save_field START_RECORD p)] else [].

(** The records the reader yields, and how it ends. *)
Definition records : Type := (list (list string) * ending)%type.

(** One more record in front. *)
Definition yield (row : list string) (rest : records) : records :=
  (row :: fst rest, snd rest).

(** All the records of a text, in the order the reader yields them.
    The reader takes the text line by line; it feeds the characters of
    a line, then the end-of-line signal, and a record is complete when
    that leaves it in [START_RECORD].  [inline] tells that the current
    line has characters already.  An error is raised when the record
    it occurs in is asked for, after the records before it. *)
Fixpoint read (p : parser) (inline : bool) (s : string) : records :=
  match s with
  | EmptyString =>
      if inline then
        match process_char p None with
        | None => ([], Error)
        | Some p' =>
            match state p' with
            | START_RECORD => ([fields p'], EndOfFile)
            | _ => (at_eof p', EndOfFile)
            end
        end
      else (at_eof p, EndOfFile)
  | String c s' =>
      match process_char p (Some c) with
      | None => ([], Error)
      | Some p1 =>
          if Ascii.eqb c LF then
            match process_char p1 None with
            | None => ([], Error)
            | Some p2 =>
                match state p2 with
                | START_RECORD => yield (fields p2) (read fresh false s')
                | _ => read p2 false s'
                end
            end
          else read p1 true s'
      end
  end.

(** [csv.reader(f)] over a file opened in text mode. *)
Definition reader (file : string) : records :=
  read fresh false (universal_newlines file).

(** *** [csv.DictReader] *)

(** A value of a row dictionary: the text of a field, [None] for a
    field the row is too short to give ([restval]), or the list of the
    fields beyond the field names. *)
Inductive value : Type :=
| Text (s : string)
| NoValue
| Rest (row : list string).

(** One row as a dictionary, in insertion order; the key [None] is
    [restkey].  Of several entries under one key the last one counts. *)
Definition dict : Type := list (option string * value).

Definition dict_row (fieldnames row : list string) : dict :=
  combine (map Some fieldnames) (map Text row)
  ++ (if (List.length fieldnames <? List.length row)%nat
      then [(None, Rest (skipn (List.length fieldnames) row))]
      else map (fun key => (Some key, NoValue))
               (skipn (List.length row) fieldnames)).

(** The first record gives the field names; empty records are skipped. *)
Definition DictReader (file : string) : list dict * ending :=
  match reader file with
  | ([], e) => ([], e)
  | (fieldnames :: rows, e) =>
      (map (dict_row fieldnames)
           (filter (fun row => match row with [] => false | _ => true end)
                   rows), e)
  end.

End Csv.
(* ================================================================== *)
(** ** [search_contact_pages], [scrape_website]                        *)
(* ================================================================== *)

(** What the source uses of a parsed page: [soup.get_text()] and, for
    each [<a href=...>] in document order, the [href] and the link text. *)
Record page : Type := {
  get_text : string;
  anchors : list (string * string)
}.

(** ['kontakt', 'contact', 'impressum', 'imprint', 'about', 'über'] *)
Definition contact_keywords : list string :=
  ["kontakt"; "contact"; "impressum"; "imprint"; "about";
   String (ascii_of_nat 252) "ber"].

(** The exceptions of the table part of the program. *)
Inductive exn : Type :=
| CsvError
| KeyError
| AttributeError
| ZeroDivisionError.

Section Crawl.

(** [list(set(...))], as for the selector. *)
Variable list_of_set : list string -> list string.

(** The network: [session.get(url, timeout=10)], [raise_for_status()]
    and the parse, as one step on the state of the outside world;
    [None] when any of them raises. *)
Variable world : Type.
Variable http_get : string -> world -> option page * world.

(** [urllib.parse.urljoin]; [None] when it raises ([ValueError] on a
    malformed address). *)
Variable urljoin : string -> string -> option string.

(** [search_contact_pages(base_url, soup)]; [None] when [urljoin]
    raises on the way. *)
Definition search_contact_pages (base_url : string) (soup : page)
  : option (list string) :=
  fold_left
    (fun state link =>
       let href := Py.lower (fst link) in
       let text := Py.lower (snd link) in
       fold_left
         (fun state keyword =>
            match state with
            | None => None
            | Some contact_links =>
                if Py.contains keyword href || Py.contains keyword text then
                  match urljoin base_url (fst link) with
                  | None => None
                  | Some full_url =>
                      if negb (Py.mem full_url contact_links)
                      then Some (contact_links ++ [full_url])
                      else Some contact_links
                  end
                else Some contact_links
            end)
         contact_keywords state)
    (anchors soup) (Some []).

(** The loop over the contact pages: the candidates of the first page
    that has any; a page that cannot be fetched is passed over. *)
Fixpoint contact_phones (contact_links : list string) (w : world)
  : list string * world :=
  match contact_links with
  | [] => ([], w)
  | contact_url :: rest =>
      match http_get contact_url w with
      | (Some contact_soup, w1) =>
          match extract_phone_from_text (get_text contact_soup) with
          | [] => contact_phones rest w1
          | found => (found, w1)
          end
      | (None, w1) => contact_phones rest w1
      end
  end.

(** The body of the [try] up to the [return]: [all_phones] as gathered
    from [test_url], or [None] when the request for the main page or
    the search for contact links raises. *)
Definition gather (test_url : string) (w : world)
  : option (list string) * world :=
  match http_get test_url w with
  | (None, w1) => (None, w1)
  | (Some soup, w1) =>
      match extract_phone_from_text (get_text soup) with
      | [] =>
          match search_contact_pages test_url soup with
          | None => (None, w1)
          | Some contact_links =>
              let (found, w2) := contact_phones (firstn 3 contact_links) w1 in
              (Some found, w2)
          end
      | all_phones => (Some all_phones, w1)
      end
  end.

(** One turn of the loop over the protocols, with its [return]. *)
Definition scrape_try (test_url : string) (w : world)
  : result (option string) * world :=
  match gather test_url w with
  | (None, w1) => (Raised, w1)
  | (Some [], w1) => (Returned None, w1)
  | (Some all_phones, w1) => (select_best_phone list_of_set all_phones, w1)
  end.

(** The URL after the first statement of [scrape_website]. *)
Definition with_protocol (url : string) : string :=
  if Py.startswith url "http://" || Py.startswith url "https://"
  then url else ("https://" ++ url)%string.

Definition test_url (protocol url : string) : string :=
  if Py.startswith url "https://" then url
  else (protocol ++ Py.replace (Py.replace url "https://" "") "http://" "")%string.

(** [scrape_website(url)]: any exception of the first turn leads to
    the second, any exception of the second to [None]. *)
Definition scrape_website (url : string) (w : world) : option string * world :=
  let url := with_protocol url in
  match scrape_try (test_url "https://" url) w with
  | (Returned phone, w1) => (phone, w1)
  | (Raised, w1) =>
      match scrape_try (test_url "http://" url) w1 with
      | (Returned phone, w2) => (phone, w2)
      | (Raised, w2) => (None, w2)
      end
  end.

(** The candidates found for a site: [all_phones] at the [return] that
    ends the call, and none when both turns raise. *)
Definition candidates_found (url : string) (w : world) : list string * world :=
  let url := with_protocol url in
  match gather (test_url "https://" url) w with
  | (Some all_phones, w1) => (all_phones, w1)
  | (None, w1) =>
      match gather (test_url "http://" url) w1 with
      | (Some all_phones, w2) => (all_phones, w2)
      | (None, w2) => ([], w2)
      end
  end.

(* ================================================================== *)
(** ** [save_results], [process_csv]                                   *)
(* ================================================================== *)

(** [save_results(results, output_file)]: the new content of the file. *)
Definition save_results (results : list (list string)) : string :=
  (Csv.writerow ["company_name"; "website"; "phone"]
   ++ Csv.writerows results)%string.

(** The loop of [process_csv] over the data rows of the input file,
    [i] counting them from 1.  A row is given by the values of
    [row.get('company_name', '')] and [row.get('website', '')]: a
    string, or [None] when the row is too short to reach the column.
    The state is [results], the content of the output file (if written
    yet) and the world; the last component tells whether the loop was
    left by an exception, which [.strip()] raises on [None]. *)
Fixpoint process_rows (rows : list (option string * option string)) (i : nat)
         (results : list (list string)) (output : option string) (w : world)
  : list (list string) * option string * world * option exn :=
  match rows with
  | [] => (results, output, w, None)
  | row :: rest =>
      match fst row, snd row with
      | Some name, Some site =>
          let company_name := Py.strip name in
          let website := Py.strip site in
          if negb (Py.truthy company_name) || negb (Py.truthy website)
          then process_rows rest (S i) results output w
          else
            let (phone, w1) := scrape_website website w in
            let results1 :=
              match phone with
              | Some p =>
                  if Py.truthy p then results ++ [[company_name; website; p]]
                  else results ++ [[company_name; website; ""]]
              | None => results ++ [[company_name; website; ""]]
              end in
            let output1 :=
              if (i mod 20 =? 0)%nat then Some (save_results results1)
              else output in
            process_rows rest (S i) results1 output1 w1
      | _, _ => (results, output, w, Some AttributeError)
      end
  end.

(** [process_csv(input_file, output_file)]: the content of the output
    file at the end ([None] when there is no such file), the world,
    and the exception the call is left by, if any.  The final save is
    reached only when the loop ends normally. *)
Definition process_csv (rows : list (option string * option string))
           (output : option string) (w : world)
  : option string * world * option exn :=
  match process_rows rows 1 [] output w with
  | (results, _, w1, None) => (Some (save_results results), w1, None)
  | (_, output1, w1, Some e) => (output1, w1, Some e)
  end.


End Crawl.

(** The read-back of [main]: the output file opened in text mode and
    read by [csv.DictReader]. *)
Definition read_back (output : string) : list Csv.dict * Csv.ending :=
  Csv.DictReader output.

(* ================================================================== *)
(** ** The summary of [main]                                           *)
(* ================================================================== *)

(** A computation that returns or raises. *)
Inductive ended (A : Type) : Type :=
| Normally (v : A)
| Raising (e : exn).

Arguments Normally {A} v.
Arguments Raising {A} e.

(** [row[key]] on a row of [csv.DictReader]; [None] is [KeyError]. *)
Definition dict_get (key : string) (d : Csv.dict) : option Csv.value :=
  match find (fun entry =>
                match fst entry with
                | Some k => String.eqb k key
                | None => false
                end) (rev d) with
  | Some entry => Some (snd entry)
  | None => None
  end.

(** The counting loop of [main] over rows already read: [total] and
    [found] after them.  [row['phone']] raises [KeyError] when there
    is no such column, and [.strip()] raises [AttributeError] on the
    [None] of a row too short to reach it. *)
Fixpoint count_found (rows : list Csv.dict) (total found : nat)
  : ended (nat * nat) :=
  match rows with
  | [] => Normally (total, found)
  | row :: rest =>
      match dict_get "phone" row with
      | None => Raising KeyError
      | Some (Csv.Text phone) =>
          count_found rest (S total)
                      (if Py.truthy (Py.strip phone) then S found else found)
      | Some _ => Raising AttributeError
      end
  end.

(** The summary of [main] over the output file: the two counts it
    prints, when it gets that far, and the exception it is left by, if
    any.  The rows are read one by one, so an exception of the loop
    body on a row comes before a [csv.Error] of a later row.  After the
    counts the success rate divides by [total], which raises
    [ZeroDivisionError] when no row was read; the quotient itself, a
    float, is left out. *)
Definition main_summary (output : string) : option (nat * nat) * option exn :=
  let (rows, e) := read_back output in
  match count_found rows 0 0 with
  | Raising x => (None, Some x)
  | Normally (total, found) =>
      match e with
      | Csv.Error => (None, Some CsvError)
      | Csv.EndOfFile =>
          (Some (total, found),
           if (total =? 0)%nat then Some ZeroDivisionError else None)
      end
  end.

(* ================================================================== *)
(** ** Notions used in the statements and proofs                       *)
(* ================================================================== *)

(** The string does not begin with white space. *)
Definition lead_ok (s : string) : Prop :=
  match s with
  | String c _ => Py.isspace c = false
  | EmptyString => True
  end.

(** The last character of a string. *)
Fixpoint last_char (s : string) : option ascii :=
  match s with
  | EmptyString => None
  | String c EmptyString => Some c
  | String _ s' => last_char s'
  end.

(** The string does not end with white space. *)
Definition trail_ok (s : string) : Prop :=
  match last_char s with
  | Some c => Py.isspace c = false
  | None => True
  end.

(** [out] ends well, or ends as [s] does. *)
Definition ends_like (s out : string) : Prop :=
  trail_ok out \/ (s <> "" /\ last_char out = last_char s).

(** The last rewriting step of [clean_phone_number] on its own. *)
Definition collapse_ws (s : string) : string := Re.sub false ws_re " " s.

(** Where the reader stands once a field is complete: [acc] holds the
    fields of the record so far and [t] starts with the delimiter or
    with the line feed that ends the record. *)
Definition after_field (acc : list string) (t : string) : Csv.records :=
  match t with
  | String c t' =>
      if Ascii.eqb c Csv.comma then
        Csv.read {| Csv.state := Csv.START_FIELD; Csv.field := ""; Csv.fields := acc |}
                 true t'
      else if Ascii.eqb c Csv.LF then
        Csv.yield acc (Csv.read Csv.fresh false t')
      else ([], Csv.Error)
  | EmptyString => ([], Csv.Error)
  end.

(** [t] starts with a delimiter or a line feed. *)
Definition terminated (t : string) : Prop :=
  exists t', t = String Csv.comma t' \/ t = String Csv.LF t'.

(** The only white space in the string is the plain space. *)
Fixpoint plain_spaces (s : string) : Prop :=
  match s with
  | EmptyString => True
  | String c s' => (Py.isspace c = true -> c = " "%char) /\ plain_spaces s'
  end.


(** The field is no longer than the reader accepts. *)
Definition within_limit (f : string) : Prop :=
  (N.of_nat (String.length f) <= Csv.field_size_limit)%N.

(** An input row that has both columns. *)
Definition full_row (row : string * string) : option string * option string :=
  (Some (fst row), Some (snd row)).

(** A row that can be written and read back: two fields or more, none
    longer than the reader accepts once its line breaks are read as
    line feeds. *)
Definition sound_row (row : list string) : Prop :=
  2 <= List.length row /\
  Forall (fun f => within_limit (Csv.universal_newlines f)) row.

(** A row of the table as [csv.DictReader] gives it. *)
Definition table_row (e : string * string * string) : Csv.dict :=
  let '(company_name, website, phone) := e in
  [(Some "company_name", Csv.Text company_name);
   (Some "website", Csv.Text website);
   (Some "phone", Csv.Text phone)].




(** A small web for trying things out: one site whose main page has
    no number but links to a contact page that has one; nothing else
    can be reached. *)
Definition example_web (url : string) (w : unit) : option page * unit :=
  if String.eqb url "https://a.example" then
    (Some {| get_text := "Willkommen";
             anchors := [("https://a.example/kontakt", "Kontakt")] |}, w)
  else if String.eqb url "https://a.example/kontakt" then
    (Some {| get_text := "Impressum Tel. 030 9999999"; anchors := [] |}, w)
  else (None, w).

(* ================================================================== *)
(** ** Notions for the further properties                               *)
(* ================================================================== *)

(** No two white-space characters follow each other. *)
Fixpoint single_spaced (s : string) : Prop :=
  match s with
  | String c ((String d _) as s') =>
      (Py.isspace c = true -> Py.isspace d = false) /\ single_spaced s'
  | _ => True
  end.

(** The characters a number of the pattern library can start with. *)
Definition number_start (c : ascii) : bool :=
  Ascii.eqb c "+" || Ascii.eqb c "(" || Py.isdigit c.

(** Every character of the string passes the test. *)
Fixpoint all_chars (ok : ascii -> bool) (s : string) : bool :=
  match s with
  | EmptyString => true
  | String c s' => ok c && all_chars ok s'
  end.

(** The texts a pattern stands for. *)
Inductive Spells (ic : bool) : Re.regex -> string -> Prop :=
| Spells_Eps : Spells ic Re.Eps ""
| Spells_Atom cs c :
    Re.in_charset ic cs c = true -> Spells ic (Re.Atom cs) (String c "")
| Spells_Rep cs lo hi pre :
    all_chars (Re.in_charset ic cs) pre = true ->
    lo <= String.length pre ->
    match hi with Some h => String.length pre <= h | None => True end ->
    Spells ic (Re.Rep cs lo hi) pre
| Spells_Seq r1 r2 a b :
    Spells ic r1 a -> Spells ic r2 b -> Spells ic (Re.Seq r1 r2) (a ++ b)
| Spells_AltL r1 r2 a : Spells ic r1 a -> Spells ic (Re.Alt r1 r2) a
| Spells_AltR r1 r2 a : Spells ic r2 a -> Spells ic (Re.Alt r1 r2) a
| Spells_Cap r a : Spells ic r a -> Spells ic (Re.Cap r) a.

(** The characters the patterns are made of. *)
Definition phone_alphabet (c : ascii) : bool :=
  Py.isdigit c || Py.isspace c || Ascii.eqb c "+" || Ascii.eqb c "-"
  || Ascii.eqb c "(" || Ascii.eqb c ")" || Ascii.eqb c "/".

(** A test that holds of all 256 characters. *)
Definition every_char (p : ascii -> bool) : bool :=
  forallb (fun n => p (ascii_of_nat n)) (seq 0 256).

(** The character matcher accepts only characters that pass [ok]. *)
Definition charset_within (ic : bool) (ok : ascii -> bool) (cs : Re.charset)
  : bool :=
  every_char (fun c => implb (Re.in_charset ic cs c) (ok c)).

(** The pattern consumes only characters that pass [ok]. *)
Fixpoint within (ic : bool) (ok : ascii -> bool) (r : Re.regex) : bool :=
  match r with
  | Re.Eps => true
  | Re.Atom cs | Re.Rep cs _ _ => charset_within ic ok cs
  | Re.Seq a b | Re.Alt a b => within ic ok a && within ic ok b
  | Re.Cap a => within ic ok a
  end.

(** The string without its first [n] characters. *)
Fixpoint drop (n : nat) (s : string) : string :=
  match n, s with
  | S n', String _ s' => drop n' s'
  | _, _ => s
  end.

(** The labels [clean_phone_number] removes, in lower case. *)
Definition labels : list string :=
  ["tel:"; "telefon:"; "phone:"; "tel."; "telefon."; "phone."].

(** A link whose address or text mentions a contact keyword. *)
Definition contact_link (link : string * string) : bool :=
  existsb
    (fun keyword =>
       Py.contains keyword (Py.lower (fst link))
       || Py.contains keyword (Py.lower (snd link)))
    contact_keywords.

(** The shape of a number that passed [clean_phone_number]: it starts
    with [+], [(] or a digit, is trimmed, and its white space is single
    plain spaces. *)
Definition normal_number (x : string) : Prop :=
  (exists c s, x = String c s /\ number_start c = true) /\
  Py.strip x = x /\
  plain_spaces x /\
  single_spaced x.

(** A row of the input that [process_csv] deals with: after trimming,
    neither the name nor the site is empty. *)
Definition usable_row (row : string * string) : bool :=
  Py.truthy (Py.strip (fst row)) && Py.truthy (Py.strip (snd row)).

(** What [process_csv] can put in the phone column. *)
Definition phone_cell (p : string) : Prop :=
  p = "" \/ (looks_german p = true /\ normal_number p).


(** The world after the requests for the addresses [urls], made one
    after the other. *)
Definition after_requests {world : Type}
           (http_get : string -> world -> option page * world)
           (urls : list string) (w : world) : world :=
  fold_left (fun w u => snd (http_get u w)) urls w.

(** The rows of the input before the first one that is too short to
    reach both columns. *)
Fixpoint leading_rows (rows : list (option string * option string))
  : list (string * string) :=
  match rows with
  | (Some name, Some site) :: rest => (name, site) :: leading_rows rest
  | _ => []
  end.

(** Every row of the input reaches both columns. *)
Definition all_complete (rows : list (option string * option string)) : bool :=
  forallb (fun row => match row with
                      | (Some _, Some _) => true
                      | _ => false
                      end) rows.




(* ================================================================== *)
(** * Properties                                                       *)
(* ================================================================== *)

(** ** Normalizer and extractor on the documented scenarios *)

(** C1: on the text ["Telefon: 089-123-4567, Fax: 089-123-9999"] the
    extractor returns both numbers: the number that follows "Fax:" is
    not filtered, because the test for "fax" looks at the matched
    digits and never at the text around them. *)
Theorem extract_keeps_fax_number :
  extract_phone_from_text "Telefon: 089-123-4567, Fax: 089-123-9999"
  = ["089-123-4567"; "089-123-9999"].
Proof. vm_compute. reflexivity. Qed.

(** C2, as stated, fails: the normalized form of ["+49(0)721-91225-35"]
    is not ["+49 721-91225-35"]. *)
Lemma normalize_trunk_no_space :
  normalize_text "+49(0)721-91225-35" <> "+49 721-91225-35" /\
  clean_phone_number (Some "+49(0)721-91225-35") <> Some "+49 721-91225-35".
Proof. split; vm_compute; discriminate. Qed.

(** C2, amended: ["+49(0)721-91225-35"] normalizes to
    ["+49721-91225-35"] (the parenthesized trunk marker is dropped and
    nothing is put in its place), and that string is accepted by the
    first, international rule of the pattern library. *)
Theorem normalize_trunk_scenario :
  normalize_text "+49(0)721-91225-35" = "+49721-91225-35" /\
  clean_phone_number (Some "+49(0)721-91225-35") = Some "+49721-91225-35" /\
  Re.matches false (nth 0 phone_patterns Re.Eps) "+49721-91225-35" = true.
Proof. repeat split; vm_compute; reflexivity. Qed.

(** C7: an absent or empty argument gives the absent result. *)
Theorem clean_empty_or_null :
  clean_phone_number None = None /\ clean_phone_number (Some "") = None.
Proof. split; reflexivity. Qed.

(** C6, as stated, fails: ["hello"] is left alone by every rewriting
    step, yet it is not passed through. *)
Lemma clean_rejects_unmatched :
  normalize_text "hello" = "hello" /\
  clean_phone_number (Some "hello") <> Some "hello".
Proof. split; vm_compute; [reflexivity | discriminate]. Qed.

(** C6, amended: [clean_phone_number] always returns; a non-empty
    input that no rewriting step changes comes back unchanged when its
    beginning matches a rule of the pattern library, and is answered
    with the absent result otherwise. *)
Theorem clean_unchanged_input (x : string) :
  x <> "" -> normalize_text x = x ->
  clean_phone_number (Some x) = if looks_german x then Some x else None.
Proof.
  intros Hne Hfix. unfold clean_phone_number.
  destruct x as [|c x']; [congruence|].
  cbn [Py.truthy negb]. rewrite Hfix. reflexivity.
Qed.

Lemma clean_unchanged_input_witness :
  clean_phone_number (Some "089-123-4567")
  = if looks_german "089-123-4567" then Some "089-123-4567" else None.
Proof.
  apply (clean_unchanged_input "089-123-4567").
  - discriminate.
  - vm_compute. reflexivity.
Defined.

(** *** Everything the extractor returns was validated *)

Lemma clean_some_inv (phone cleaned : string) :
  clean_phone_number (Some phone) = Some cleaned ->
  cleaned = normalize_text phone /\ looks_german cleaned = true.
Proof.
  unfold clean_phone_number.
  destruct (negb (Py.truthy phone)); [discriminate|].
  destruct (looks_german (normalize_text phone)) eqn:E; [|discriminate].
  intros [= <-]. auto.
Qed.

Lemma keep_valid_in (valid : list string) (phone x : string) :
  In x (keep_valid valid phone) ->
  In x valid \/ clean_phone_number (Some phone) = Some x.
Proof.
  unfold keep_valid.
  destruct (clean_phone_number (Some phone)) as [cleaned|]; auto.
  destruct (Py.truthy cleaned && negb (Py.mem cleaned valid)); auto.
  destruct (negb (Py.contains "fax" (Py.lower phone))); auto.
  rewrite in_app_iff. simpl. intros [H|[->|[]]]; auto.
Qed.

Lemma fold_keep_valid_in (phones valid : list string) (x : string) :
  In x (fold_left keep_valid phones valid) ->
  In x valid \/
  exists phone, In phone phones /\ clean_phone_number (Some phone) = Some x.
Proof.
  revert valid. induction phones as [|p ps IH]; simpl; intros valid H; auto.
  apply IH in H. destruct H as [H|(q & Hq & Hc)].
  - apply keep_valid_in in H. destruct H; eauto.
  - eauto.
Qed.

(** C4: every string the extractor returns is the normalized form of a
    candidate (labelled or structural) and matches, from its first
    character, at least one rule of the pattern library. *)
Theorem extract_revalidated (text x : string) :
  In x (extract_phone_from_text text) ->
  (exists phone,
      In phone (labelled_candidates text ++ structural_candidates text) /\
      x = normalize_text phone) /\
  (exists pattern,
      In pattern phone_patterns /\ Re.matches false pattern x = true).
Proof.
  unfold extract_phone_from_text. intros H.
  apply fold_keep_valid_in in H. destruct H as [[]|(phone & Hin & Hc)].
  apply clean_some_inv in Hc. destruct Hc as [Hn Hg].
  split; [eauto|].
  unfold looks_german in Hg. apply existsb_exists in Hg. exact Hg.
Qed.

Lemma extract_revalidated_witness :
  (exists phone,
      In phone (labelled_candidates "Tel. 030 1234 567"
                ++ structural_candidates "Tel. 030 1234 567") /\
      "030 1234 567" = normalize_text phone) /\
  (exists pattern,
      In pattern phone_patterns /\
      Re.matches false pattern "030 1234 567" = true).
Proof.
  apply (extract_revalidated "Tel. 030 1234 567" "030 1234 567").
  vm_compute. left. reflexivity.
Defined.

(** ** Trimming and the ends of a string *)
Lemma last_char_cons (c : ascii) (s : string) :
  last_char (String c s) = match s with EmptyString => Some c | _ => last_char s end.
Proof. destruct s; reflexivity. Qed.

Lemma last_char_app (a b : string) :
  b <> "" -> last_char (a ++ b)%string = last_char b.
Proof.
  intros Hb. induction a as [|c a IH]; simpl; [reflexivity|].
  destruct (a ++ b)%string eqn:E.
  - destruct a; simpl in E; [congruence|discriminate].
  - exact IH.
Qed.

Lemma lstrip_lead_ok (s : string) : lead_ok (Py.lstrip s).
Proof.
  induction s as [|c s IH]; simpl; [exact I|].
  destruct (Py.isspace c) eqn:E; [exact IH|]. simpl. exact E.
Qed.

Lemma lead_ok_lstrip (s : string) : lead_ok s -> Py.lstrip s = s.
Proof. destruct s as [|c s]; simpl; [reflexivity|]. intros ->. reflexivity. Qed.

Lemma rstrip_cons (c : ascii) (s : string) :
  Py.rstrip (String c s) =
  match Py.rstrip s with
  | EmptyString => if Py.isspace c then EmptyString else String c EmptyString
  | r => String c r
  end.
Proof. reflexivity. Qed.

Lemma rstrip_trail_ok (s : string) : trail_ok (Py.rstrip s).
Proof.
  unfold trail_ok. induction s as [|c s IH]; [exact I|].
  rewrite rstrip_cons. destruct (Py.rstrip s) as [|d r].
  - destruct (Py.isspace c) eqn:E; simpl; [exact I|exact E].
  - rewrite last_char_cons. exact IH.
Qed.

Lemma trail_ok_rstrip (s : string) : trail_ok s -> Py.rstrip s = s.
Proof.
  unfold trail_ok. induction s as [|c s IH]; [reflexivity|].
  rewrite last_char_cons, rstrip_cons. destruct s as [|d s'].
  - simpl. intros ->. reflexivity.
  - intros H. rewrite (IH H). reflexivity.
Qed.

Lemma rstrip_lead_ok (s : string) : lead_ok s -> lead_ok (Py.rstrip s).
Proof.
  destruct s as [|c s]; [intros; exact I|]. simpl lead_ok at 1. intros H.
  rewrite rstrip_cons. destruct (Py.rstrip s); [rewrite H|]; exact H.
Qed.

Lemma strip_ok (s : string) : lead_ok (Py.strip s) /\ trail_ok (Py.strip s).
Proof.
  unfold Py.strip. split.
  - apply rstrip_lead_ok, lstrip_lead_ok.
  - apply rstrip_trail_ok.
Qed.

Lemma ok_strip (s : string) : lead_ok s -> trail_ok s -> Py.strip s = s.
Proof.
  intros Hl Ht. unfold Py.strip. rewrite (lead_ok_lstrip s Hl).
  apply trail_ok_rstrip, Ht.
Qed.

Lemma append_empty_r (s : string) : (s ++ "")%string = s.
Proof. induction s as [|c s IH]; simpl; [|rewrite IH]; reflexivity. Qed.

Lemma ends_like_cons_s (c : ascii) (s out : string) :
  ends_like s out -> ends_like (String c s) out.
Proof.
  intros [H|(Hs & H)]; [left; exact H|right].
  split; [discriminate|]. rewrite last_char_cons.
  destruct s; [congruence|exact H].
Qed.

Lemma ends_like_plain (c : ascii) (s out : string) :
  ends_like s out -> (out = "" -> 0 = 0 -> s = "") ->
  ends_like (String c s) (String c out).
Proof.
  intros E N. destruct out as [|d out'].
  - rewrite N by reflexivity. right. split; [discriminate|reflexivity].
  - destruct E as [H|(Hs & H)].
    + left. unfold trail_ok in *. rewrite last_char_cons. exact H.
    + right. split; [discriminate|]. rewrite !last_char_cons.
      destruct s; [congruence|exact H].
Qed.

(** ** Substitution and the ends of the subject *)
Section Scan.
Variable ic : bool.
Variable r : Re.regex.
Variable repl : string.
Hypothesis repl_lead : lead_ok repl.
Hypothesis repl_trail : trail_ok repl.
Hypothesis repl_nonempty : repl <> "".

Lemma scan_cons0 (c : ascii) (s : string) :
  Re.scan ic r 0 (String c s) = Re.Plain c :: Re.scan ic r 0 s \/
  exists w g tail,
    Re.scan ic r 0 (String c s) = Re.Hit w g :: tail /\
    ((exists n, tail = Re.scan ic r n s) \/
     tail = Re.Plain c :: Re.scan ic r 0 s \/
     (exists w2 g2 n, tail = Re.Hit w2 g2 :: Re.scan ic r n s)).
Proof.
  cbn [Re.scan].
  destruct (Re.attempt ic r false (String c s)) as [[g s1]|]; [|left; reflexivity].
  right. destruct (String.length (Re.consumed (String c s) s1)) as [|n].
  - destruct (Re.attempt ic r true (String c s)) as [[g2 s2]|]; eauto 10.
  - eauto 10.
Qed.

Lemma scan_nil0 :
  Re.scan ic r 0 "" = [] \/ exists w g, Re.scan ic r 0 "" = [Re.Hit w g].
Proof.
  cbn [Re.scan]. destruct (Re.attempt ic r false "") as [[g s1]|]; [|auto].
  right. destruct (String.length (Re.consumed "" s1)); eauto.
Qed.

Lemma ends_like_repl (s out : string) :
  ends_like s out -> ends_like s (repl ++ out)%string.
Proof.
  intros E. destruct out as [|d out'].
  - rewrite append_empty_r. left. exact repl_trail.
  - destruct E as [H|(Hs & H)].
    + left. unfold trail_ok in *. rewrite last_char_app by discriminate. exact H.
    + right. split; [exact Hs|]. rewrite last_char_app by discriminate. exact H.
Qed.

Lemma lead_ok_repl_app (out : string) : lead_ok (repl ++ out)%string.
Proof. destruct repl; [congruence|exact repl_lead]. Qed.

Lemma sub_lead_ok (s : string) : lead_ok s -> lead_ok (Re.sub ic r repl s).
Proof.
  unfold Re.sub. destruct s as [|c s]; intros H.
  - destruct scan_nil0 as [->|(w & g & ->)]; simpl; [exact I|].
    apply lead_ok_repl_app.
  - destruct (scan_cons0 c s) as [->|(w & g & tail & -> & _)]; simpl.
    + exact H.
    + apply lead_ok_repl_app.
Qed.

Lemma render_ends (s : string) : forall skip,
  let out := Re.render repl (Re.scan ic r skip s) in
  ends_like s out /\ (out = "" -> skip = 0 -> s = "").
Proof.
  induction s as [|c s IH]; intros skip out; subst out.
  - destruct skip as [|n].
    + destruct scan_nil0 as [->|(w & g & ->)]; simpl.
      * split; [left; exact I|reflexivity].
      * rewrite append_empty_r. split; [left; exact repl_trail|].
        intros E. contradiction.
    + simpl. split; [left; exact I|reflexivity].
  - destruct skip as [|n].
    + assert (P : ends_like (String c s)
                    (String c (Re.render repl (Re.scan ic r 0 s)))).
      { destruct (IH 0) as [E N]. apply ends_like_plain; assumption. }
      destruct (scan_cons0 c s) as [->|(w & g & tail & -> & T)].
      * split; [exact P|discriminate].
      * cbn [Re.render fold_right]. fold (Re.render repl tail).
        split; [|intros E; destruct repl; [congruence|discriminate]].
        apply ends_like_repl.
        destruct T as [(n & ->)|[->|(w2 & g2 & n & ->)]].
        -- apply ends_like_cons_s, IH.
        -- exact P.
        -- cbn [Re.render fold_right]. apply ends_like_repl.
           apply ends_like_cons_s, IH.
    + cbn [Re.scan]. destruct (IH n) as [E _].
      split; [apply ends_like_cons_s, E|discriminate].
Qed.

Lemma sub_trail_ok (s : string) : trail_ok s -> trail_ok (Re.sub ic r repl s).
Proof.
  intros H. destruct (render_ends s 0) as [[E|(_ & E)] _]; [exact E|].
  unfold Re.sub, trail_ok. rewrite E. exact H.
Qed.
End Scan.

(** A pattern that occurs nowhere is replaced nowhere. *)
Lemma findall_nil_sub (ic : bool) (r : Re.regex) (repl s : string) :
  Re.findall ic r s = [] -> Re.sub ic r repl s = s.
Proof.
  unfold Re.findall, Re.sub. induction s as [|c s IH].
  - destruct (scan_nil0 ic r) as [->|(w & g & ->)]; simpl;
      [reflexivity|discriminate].
  - destruct (scan_cons0 ic r c s) as [->|(w & g & tail & -> & _)]; simpl.
    + intros H. rewrite (IH H). reflexivity.
    + discriminate.
Qed.

(** ** Collapsing white space *)
Lemma lstrip_length (s : string) : String.length (Py.lstrip s) <= String.length s.
Proof.
  induction s as [|c s IH]; simpl; [lia|].
  destruct (Py.isspace c); simpl; lia.
Qed.

Lemma substring0_length (n : nat) (s : string) :
  n <= String.length s -> String.length (substring 0 n s) = n.
Proof.
  revert n. induction s as [|c s IH]; intros [|n]; simpl; intros H; try lia.
  rewrite IH; lia.
Qed.

Lemma scan_skip_lstrip (ic : bool) (r : Re.regex) (s : string) :
  Re.scan ic r (String.length s - String.length (Py.lstrip s)) s
  = Re.scan ic r 0 (Py.lstrip s).
Proof.
  induction s as [|c s IH]; [reflexivity|].
  cbn [Py.lstrip]. destruct (Py.isspace c).
  - pose proof (lstrip_length s) as L.
    replace (String.length (String c s) - String.length (Py.lstrip s))
      with (S (String.length s - String.length (Py.lstrip s)))
      by (cbn [String.length]; lia).
    exact IH.
  - rewrite Nat.sub_diag. reflexivity.
Qed.

Lemma rep_space_star (g : option string) (s : string) :
  Re.rep false Re.Space 0 None s (fun s' => Some (g, s')) = Some (g, Py.lstrip s).
Proof.
  induction s as [|c s IH]; [reflexivity|].
  cbn [Re.rep Py.lstrip Re.in_charset andb pred option_map Nat.eqb].
  destruct (Py.isspace c); [rewrite IH|]; reflexivity.
Qed.

Lemma attempt_ws_space (c : ascii) (s : string) :
  Py.isspace c = true ->
  Re.attempt false ws_re false (String c s) = Some (None, Py.lstrip s).
Proof.
  intros H. unfold Re.attempt, ws_re.
  cbn [Re.run Re.rep Re.in_charset andb pred option_map Nat.eqb].
  rewrite H. rewrite rep_space_star. reflexivity.
Qed.

Lemma attempt_ws_other (c : ascii) (s : string) :
  Py.isspace c = false ->
  Re.attempt false ws_re false (String c s) = None.
Proof.
  intros H. unfold Re.attempt, ws_re.
  cbn [Re.run Re.rep Re.in_charset andb pred option_map Nat.eqb].
  rewrite H. reflexivity.
Qed.

Lemma collapse_ws_nil : collapse_ws "" = "".
Proof. reflexivity. Qed.

Lemma collapse_ws_other (c : ascii) (s : string) :
  Py.isspace c = false -> collapse_ws (String c s) = String c (collapse_ws s).
Proof.
  intros H. unfold collapse_ws, Re.sub. cbn [Re.scan].
  rewrite (attempt_ws_other c s H). reflexivity.
Qed.

Lemma collapse_ws_space (c : ascii) (s : string) :
  Py.isspace c = true ->
  collapse_ws (String c s) = String " " (collapse_ws (Py.lstrip s)).
Proof.
  intros H. unfold collapse_ws, Re.sub. cbn [Re.scan].
  rewrite (attempt_ws_space c s H).
  pose proof (lstrip_length s) as L.
  unfold Re.consumed.
  rewrite substring0_length by (cbn [String.length]; lia).
  replace (String.length (String c s) - String.length (Py.lstrip s))
    with (S (String.length s - String.length (Py.lstrip s))) by (cbn [String.length]; lia).
  rewrite scan_skip_lstrip. reflexivity.
Qed.

Lemma collapse_ws_lead_ok (s : string) : lead_ok s -> lead_ok (collapse_ws s).
Proof.
  destruct s as [|c s]; [intros; exact I|]. simpl. intros H.
  rewrite (collapse_ws_other c s H). exact H.
Qed.

Lemma lstrip_nonempty (s : string) :
  s <> "" -> trail_ok s -> Py.lstrip s <> "".
Proof.
  unfold trail_ok. induction s as [|c s IH]; [congruence|]. intros _.
  rewrite last_char_cons. cbn [Py.lstrip].
  destruct (Py.isspace c) eqn:E; [|discriminate].
  destruct s as [|d s']; [congruence|]. apply IH. discriminate.
Qed.

Lemma lstrip_trail_ok (s : string) : trail_ok s -> trail_ok (Py.lstrip s).
Proof.
  unfold trail_ok. induction s as [|c s IH]; [auto|].
  rewrite last_char_cons. cbn [Py.lstrip].
  destruct (Py.isspace c) eqn:E.
  - destruct s as [|d s']; [intros; exact I|]. exact IH.
  - rewrite last_char_cons. auto.
Qed.

Lemma collapse_ws_nonempty (s : string) : s <> "" -> collapse_ws s <> "".
Proof.
  destruct s as [|c s]; [congruence|]. intros _.
  destruct (Py.isspace c) eqn:E.
  - rewrite collapse_ws_space by exact E. discriminate.
  - rewrite collapse_ws_other by exact E. discriminate.
Qed.

Lemma by_length (P : string -> Prop) :
  (forall s, (forall t, String.length t < String.length s -> P t) -> P s) ->
  forall s, P s.
Proof.
  intros Step s.
  assert (H : forall n t, String.length t < n -> P t).
  { induction n as [|n IH]; intros t L; [lia|].
    apply Step. intros u Lu. apply IH. lia. }
  apply (H (S (String.length s))). lia.
Qed.

Lemma collapse_ws_trail_ok (s : string) : trail_ok s -> trail_ok (collapse_ws s).
Proof.
  induction s as [s IH] using by_length. intros H.
  destruct s as [|c s]; [exact I|].
  assert (Tail : s <> "" -> trail_ok s).
  { intros Hs. unfold trail_ok in *. rewrite last_char_cons in H.
    destruct s; [congruence|exact H]. }
  destruct (Py.isspace c) eqn:E.
  - rewrite collapse_ws_space by exact E.
    assert (Hs : s <> "").
    { intros ->. unfold trail_ok in H. simpl in H. congruence. }
    pose proof (lstrip_nonempty s Hs (Tail Hs)) as N.
    pose proof (collapse_ws_nonempty _ N) as N'.
    assert (T : trail_ok (collapse_ws (Py.lstrip s))).
    { apply IH; [pose proof (lstrip_length s); simpl; lia|].
      apply lstrip_trail_ok, Tail, Hs. }
    unfold trail_ok in *. rewrite last_char_cons.
    destruct (collapse_ws (Py.lstrip s)); [congruence|exact T].
  - rewrite collapse_ws_other by exact E.
    destruct s as [|d s'].
    + rewrite collapse_ws_nil. unfold trail_ok. simpl. exact E.
    + assert (T : trail_ok (collapse_ws (String d s'))).
      { apply IH; [simpl; lia|]. apply Tail. discriminate. }
      pose proof (collapse_ws_nonempty (String d s')) as N'.
      unfold trail_ok in *. rewrite last_char_cons.
      destruct (collapse_ws (String d s')); [exfalso; apply N'; [discriminate|reflexivity]|exact T].
Qed.

Lemma collapse_ws_idem (s : string) : collapse_ws (collapse_ws s) = collapse_ws s.
Proof.
  induction s as [s IH] using by_length.
  destruct s as [|c s]; [reflexivity|].
  destruct (Py.isspace c) eqn:E.
  - rewrite collapse_ws_space by exact E.
    rewrite collapse_ws_space by reflexivity.
    rewrite (lead_ok_lstrip (collapse_ws (Py.lstrip s)))
      by apply collapse_ws_lead_ok, lstrip_lead_ok.
    rewrite IH; [reflexivity|]. pose proof (lstrip_length s). simpl. lia.
  - rewrite collapse_ws_other by exact E.
    rewrite collapse_ws_other by exact E.
    rewrite IH; [reflexivity|]. simpl. lia.
Qed.

(** ** Idempotence of the normalizer *)

(** The rewriting steps leave a string that neither begins nor ends
    with white space. *)
Lemma normalize_text_trimmed (x : string) :
  lead_ok (normalize_text x) /\ trail_ok (normalize_text x).
Proof.
  unfold normalize_text. fold collapse_ws.
  destruct (strip_ok (Re.sub true label_re "" x)) as [L T].
  split.
  - apply collapse_ws_lead_ok, sub_lead_ok;
      [reflexivity|reflexivity|discriminate|exact L].
  - apply collapse_ws_trail_ok, sub_trail_ok;
      [reflexivity|reflexivity|discriminate|exact T].
Qed.

(** C5, as stated, fails: a label that only appears once another has
    been removed survives the first pass and is removed by the second. *)
Lemma normalize_not_idempotent :
  normalize_text (normalize_text "089-123-4567 ttel:el:")
  <> normalize_text "089-123-4567 ttel:el:" /\
  normalize_text "089-123-4567 ttel:el:" = "089-123-4567 tel:" /\
  normalize_text "089-123-4567 tel:" = "089-123-4567".
Proof. split; [|split]; vm_compute; [discriminate|reflexivity|reflexivity]. Qed.

(** C5, amended: normalizing twice gives the same as normalizing once
    for every [x] whose normalized form contains no label token and no
    occurrence of [+49(0)] any more. *)
Theorem normalize_idempotent_when_settled (x : string) :
  Re.findall true label_re (normalize_text x) = [] ->
  Re.findall false trunk_re (normalize_text x) = [] ->
  normalize_text (normalize_text x) = normalize_text x.
Proof.
  intros Hlabel Htrunk.
  destruct (normalize_text_trimmed x) as [L T].
  unfold normalize_text at 1.
  rewrite (findall_nil_sub _ _ "" _ Hlabel).
  rewrite (ok_strip _ L T).
  rewrite (findall_nil_sub _ _ "+49" _ Htrunk).
  unfold normalize_text. apply collapse_ws_idem.
Qed.

Lemma normalize_idempotent_when_settled_witness :
  normalize_text (normalize_text "Tel.:  +49 (0) 89 - 1234  567 ")
  = normalize_text "Tel.:  +49 (0) 89 - 1234  567 ".
Proof.
  apply (normalize_idempotent_when_settled "Tel.:  +49 (0) 89 - 1234  567 ");
    vm_compute; reflexivity.
Defined.

(** ** The selector *)

Section SelectorProps.

Variable list_of_set : list string -> list string.

(** The enumeration lists each distinct element once, in some order. *)
Hypothesis list_of_set_perm :
  forall l, Permutation (list_of_set l) (nodup string_dec l).

(** The test the selector applies to each candidate. *)
Local Abbreviation landline := (fun phone => negb (Py.startswith phone "01")).

Lemma list_of_set_In (l : list string) (x : string) :
  In x (list_of_set l) <-> In x l.
Proof.
  split; intros H.
  - apply (nodup_In string_dec).
    eapply Permutation_in; [apply list_of_set_perm | exact H].
  - eapply Permutation_in; [apply Permutation_sym, list_of_set_perm |].
    apply (nodup_In string_dec). exact H.
Qed.

Lemma list_of_set_nonempty (l : list string) :
  l <> [] -> list_of_set l <> [].
Proof.
  destruct l as [|x l]; [congruence|]. intros _ E.
  assert (H : In x (list_of_set (x :: l))) by (apply (proj2 (list_of_set_In _ _)); left; reflexivity).
  rewrite E in H. exact H.
Qed.

(** The selector's answer on a non-empty list, by cases on the search
    for a candidate that does not start with "01". *)
Lemma select_cases (phones : list string) :
  phones <> [] ->
  (exists r, find landline (list_of_set phones) = Some r /\
             select_best_phone list_of_set phones = Returned (Some r)) \/
  (exists r rest, find landline (list_of_set phones) = None /\
                  list_of_set phones = r :: rest /\
                  select_best_phone list_of_set phones = Returned (Some r)).
Proof.
  intros Hne. pose proof (list_of_set_nonempty phones Hne) as Hu.
  unfold select_best_phone.
  destruct phones as [|p ps]; [congruence|].
  destruct (find landline (list_of_set (p :: ps))) as [r|] eqn:F.
  - left. eauto.
  - right. destruct (list_of_set (p :: ps)) as [|r rest]; [congruence|].
    eauto.
Qed.

(** C3: no candidates, no value; when some candidate does not start
    with "01", the selector returns one that does not; and of
    ["089 1234567"] and ["0151 1234567"] it returns the landline
    number. *)
Theorem select_prefers_landline :
  select_best_phone list_of_set [] = Returned None /\
  (forall phones,
      (exists p, In p phones /\ Py.startswith p "01" = false) ->
      exists r, select_best_phone list_of_set phones = Returned (Some r) /\
                Py.startswith r "01" = false) /\
  select_best_phone list_of_set ["089 1234567"; "0151 1234567"] = Returned (Some "089 1234567").
Proof.
  assert (General : forall phones,
      (exists p, In p phones /\ Py.startswith p "01" = false) ->
      exists r, select_best_phone list_of_set phones = Returned (Some r) /\
                Py.startswith r "01" = false /\ In r phones).
  { intros phones (p & Hin & Hp).
    assert (Hne : phones <> []) by (intros ->; inversion Hin).
    destruct (select_cases phones Hne) as [(r & F & S)|(r & rest & F & _ & _)].
    - exists r. apply find_some in F. destruct F as [Fi Fl].
      apply negb_true_iff in Fl.
      apply (proj1 (list_of_set_In _ _)) in Fi. repeat split; assumption.
    - exfalso. apply (proj2 (list_of_set_In _ _)) in Hin.
      apply (find_none _ _ F) in Hin. cbv beta in Hin.
      rewrite Hp in Hin. discriminate. }
  split; [reflexivity|]. split.
  - intros phones H. destruct (General phones H) as (r & S & L & _). eauto.
  - destruct (General ["089 1234567"; "0151 1234567"]) as (r & S & L & I).
    + exists "089 1234567". split; [left|]; reflexivity.
    + rewrite S. destruct I as [<-|[<-|[]]]; [reflexivity|].
      vm_compute in L. discriminate.
Qed.

Lemma select_member (phones : list string) :
  phones <> [] ->
  exists r, select_best_phone list_of_set phones = Returned (Some r) /\
            In r phones.
Proof.
  intros Hne.
  destruct (select_cases phones Hne) as [(r & F & S)|(r & rest & _ & U & S)];
    exists r; split; auto; apply (proj1 (list_of_set_In _ _)).
  - apply find_some in F. tauto.
  - rewrite U. left. reflexivity.
Qed.

(** C9: on a non-empty list the selector returns one of the list's
    own elements. *)
Theorem select_returns_member (phones : list string) :
  phones <> [] ->
  exists r, select_best_phone list_of_set phones = Returned (Some r) /\
            In r phones.
Proof. exact (select_member phones). Qed.

(** C10: "mobile" means "starts with the two characters 01" and
    nothing else.  The selector returns the first candidate of the
    enumeration that does not start with "01" when there is one; a
    number starting with "+49 1" passes that test; and such a number
    is returned whenever every other candidate starts with "01". *)
Theorem select_mobile_is_01_prefix :
  (forall phones r,
      find (fun phone => negb (String.prefix "01" phone)) (list_of_set phones)
      = Some r ->
      select_best_phone list_of_set phones = Returned (Some r)) /\
  (forall rest, Py.startswith ("+49 1" ++ rest)%string "01" = false) /\
  (forall phones rest,
      In ("+49 1" ++ rest)%string phones ->
      (forall q, In q phones -> q <> ("+49 1" ++ rest)%string ->
                 String.prefix "01" q = true) ->
      select_best_phone list_of_set phones = Returned (Some ("+49 1" ++ rest)%string)) /\
  select_best_phone list_of_set ["0151 1234567"; "+49 151 7654321"] = Returned (Some "+49 151 7654321").
Proof.
  assert (First : forall phones r,
      find (fun phone => negb (String.prefix "01" phone)) (list_of_set phones)
      = Some r ->
      select_best_phone list_of_set phones = Returned (Some r)).
  { intros phones r F. unfold select_best_phone.
    destruct phones as [|p ps].
    - exfalso. apply find_some in F. destruct F as [Fi _].
      apply (proj1 (list_of_set_In _ _)) in Fi. exact Fi.
    - unfold Py.startswith. rewrite F. reflexivity. }
  assert (Only : forall phones rest,
      In ("+49 1" ++ rest)%string phones ->
      (forall q, In q phones -> q <> ("+49 1" ++ rest)%string ->
                 String.prefix "01" q = true) ->
      select_best_phone list_of_set phones = Returned (Some ("+49 1" ++ rest)%string)).
  { intros phones rest Hin Hothers.
    destruct (find (fun phone => negb (String.prefix "01" phone))
                   (list_of_set phones)) as [r|] eqn:F.
    - rewrite (First _ _ F). apply find_some in F. destruct F as [Fi Fl].
      apply (proj1 (list_of_set_In _ _)) in Fi.
      destruct (string_dec r ("+49 1" ++ rest)%string) as [->|Hd]; [reflexivity|].
      rewrite (Hothers r Fi Hd) in Fl. discriminate.
    - apply (proj2 (list_of_set_In _ _)) in Hin. apply (find_none _ _ F) in Hin.
      discriminate. }
  split; [exact First|]. split; [reflexivity|]. split; [exact Only|].
  apply (Only _ "51 7654321").
  - right. left. reflexivity.
  - intros q [<-|[<-|[]]] Hq; [reflexivity | simpl in Hq; congruence].
Qed.

End SelectorProps.

Lemma select_prefers_landline_witness :
  select_best_phone (nodup string_dec) [] = Returned None /\
  (forall phones,
      (exists p, In p phones /\ Py.startswith p "01" = false) ->
      exists r, select_best_phone (nodup string_dec) phones = Returned (Some r) /\
                Py.startswith r "01" = false) /\
  select_best_phone (nodup string_dec) ["089 1234567"; "0151 1234567"]
  = Returned (Some "089 1234567").
Proof.
  apply (select_prefers_landline (nodup string_dec)).
  intros l. apply Permutation_refl.
Defined.

Lemma select_returns_member_witness :
  exists r,
    select_best_phone (nodup string_dec) ["0151 1234567"; "030 9999999"]
    = Returned (Some r) /\
    In r ["0151 1234567"; "030 9999999"].
Proof.
  apply (select_returns_member (nodup string_dec)).
  - intros l. apply Permutation_refl.
  - discriminate.
Defined.

Lemma select_mobile_is_01_prefix_witness :
  select_best_phone (nodup string_dec) ["0151 1234567"; "+49 151 7654321"]
  = Returned (Some "+49 151 7654321").
Proof.
  apply (select_mobile_is_01_prefix (nodup string_dec)).
  intros l. apply Permutation_refl.
Defined.

(** ** The written table, read back *)

Lemma append_assoc (a b c : string) : ((a ++ b) ++ c = a ++ (b ++ c))%string.
Proof. induction a as [|x a IH]; simpl; [|rewrite IH]; reflexivity. Qed.

Lemma append_assoc_cons (u : string) (c : ascii) (f : string) :
  (u ++ String c f = (u ++ String c "") ++ f)%string.
Proof. rewrite append_assoc. reflexivity. Qed.

Lemma special_not_CR (c : ascii) :
  Csv.special c = false -> Ascii.eqb c Csv.CR = false.
Proof.
  unfold Csv.special. intros H.
  apply orb_false_iff in H. destruct H as [H _].
  apply orb_false_iff in H. destruct H as [_ H]. exact H.
Qed.

Lemma un_plain (f t : string) :
  Csv.needs_quote f = false ->
  Csv.universal_newlines (f ++ t) = (f ++ Csv.universal_newlines t)%string.
Proof.
  induction f as [|c f IH]; simpl; intros H; [reflexivity|].
  apply orb_false_iff in H. destruct H as [Hc Hf].
  rewrite (special_not_CR c Hc). rewrite (IH Hf). reflexivity.
Qed.

Lemma un_other (c : ascii) (s : string) :
  Ascii.eqb c Csv.CR = false ->
  Csv.universal_newlines (String c s) = String c (Csv.universal_newlines s).
Proof. intros H. simpl. rewrite H. reflexivity. Qed.

Lemma un_CR_LF (s : string) :
  Csv.universal_newlines (String Csv.CR (String Csv.LF s))
  = String Csv.LF (Csv.universal_newlines s).
Proof. reflexivity. Qed.

Lemma un_CR_other (d : ascii) (s : string) :
  Ascii.eqb d Csv.LF = false ->
  Csv.universal_newlines (String Csv.CR (String d s))
  = String Csv.LF (Csv.universal_newlines (String d s)).
Proof.
  intros H. cbn [Csv.universal_newlines].
  change (Ascii.eqb Csv.CR Csv.CR) with true. cbv iota. rewrite H. reflexivity.
Qed.

Lemma escape_dquote (f : string) :
  Csv.escape (String Csv.dquote f)
  = String Csv.dquote (String Csv.dquote (Csv.escape f)).
Proof. reflexivity. Qed.

Lemma escape_other (c : ascii) (f : string) :
  Ascii.eqb c Csv.dquote = false ->
  Csv.escape (String c f) = String c (Csv.escape f).
Proof. intros H. cbn [Csv.escape]. rewrite H. reflexivity. Qed.

(** Escaping never puts a line feed in front. *)
Lemma escape_head (d : ascii) (f t : string) :
  Ascii.eqb d Csv.LF = false ->
  exists e s, (Csv.escape (String d f) ++ t)%string = String e s /\
              Ascii.eqb e Csv.LF = false.
Proof.
  intros H. destruct (Ascii.eqb d Csv.dquote) eqn:Q.
  - apply Ascii.eqb_eq in Q. subst d. rewrite escape_dquote.
    eexists _, _. split; reflexivity.
  - rewrite (escape_other d f Q). eexists _, _. split; [reflexivity|exact H].
Qed.

Lemma un_escape (f : string) :
  forall t, Csv.universal_newlines (Csv.escape f ++ String Csv.dquote t)
            = (Csv.escape (Csv.universal_newlines f)
               ++ String Csv.dquote (Csv.universal_newlines t))%string.
Proof.
  induction f as [f IH] using by_length. intros t.
  destruct f as [|c f].
  - cbn [Csv.escape append Csv.universal_newlines].
    change (Ascii.eqb Csv.dquote Csv.CR) with false. reflexivity.
  - destruct (Ascii.eqb c Csv.CR) eqn:Ec.
    + apply Ascii.eqb_eq in Ec. subst c.
      rewrite (escape_other Csv.CR) by reflexivity. cbn [append].
      destruct f as [|d f].
      * cbn [Csv.escape append].
        rewrite un_CR_other by reflexivity.
        rewrite (un_other Csv.dquote) by reflexivity. reflexivity.
      * destruct (Ascii.eqb d Csv.LF) eqn:Ed.
        -- apply Ascii.eqb_eq in Ed. subst d.
           rewrite (escape_other Csv.LF) by reflexivity. cbn [append].
           rewrite !un_CR_LF. rewrite IH by (cbn [String.length]; lia).
           rewrite (escape_other Csv.LF) by reflexivity. reflexivity.
        -- destruct (escape_head d f (String Csv.dquote t) Ed)
             as (e & s & E1 & E2).
           rewrite E1, (un_CR_other e s E2), <- E1.
           rewrite IH by (cbn [String.length]; lia).
           rewrite (un_CR_other d f Ed).
           rewrite (escape_other Csv.LF) by reflexivity. reflexivity.
    + rewrite (un_other c f Ec).
      destruct (Ascii.eqb c Csv.dquote) eqn:Eq.
      * apply Ascii.eqb_eq in Eq. subst c.
        rewrite !escape_dquote. cbn [append].
        rewrite !(un_other Csv.dquote) by reflexivity.
        rewrite IH by (cbn [String.length]; lia). reflexivity.
      * rewrite !(escape_other c) by exact Eq. cbn [append].
        rewrite (un_other c _ Ec).
        rewrite IH by (cbn [String.length]; lia). reflexivity.
Qed.

Lemma needs_quote_un (f : string) :
  Csv.needs_quote (Csv.universal_newlines f) = Csv.needs_quote f.
Proof.
  induction f as [f IH] using by_length.
  destruct f as [|c f]; [reflexivity|].
  destruct (Ascii.eqb c Csv.CR) eqn:Ec.
  - apply Ascii.eqb_eq in Ec. subst c.
    destruct f as [|d f]; [reflexivity|].
    destruct (Ascii.eqb d Csv.LF) eqn:Ed.
    + apply Ascii.eqb_eq in Ed. subst d. rewrite un_CR_LF. reflexivity.
    + rewrite (un_CR_other d f Ed). reflexivity.
  - rewrite (un_other c f Ec). cbn [Csv.needs_quote].
    rewrite IH by (cbn [String.length]; lia). reflexivity.
Qed.

Lemma un_plain_id (f : string) :
  Csv.needs_quote f = false -> Csv.universal_newlines f = f.
Proof.
  induction f as [|c f IH]; simpl; intros H; [reflexivity|].
  apply orb_false_iff in H. destruct H as [Hc Hf].
  rewrite (special_not_CR c Hc). rewrite (IH Hf). reflexivity.
Qed.

Lemma un_quote_field (f t : string) :
  Csv.universal_newlines (Csv.quote_field f ++ t)
  = (Csv.quote_field (Csv.universal_newlines f) ++ Csv.universal_newlines t)%string.
Proof.
  unfold Csv.quote_field. rewrite needs_quote_un.
  destruct (Csv.needs_quote f) eqn:N.
  - cbn [append]. rewrite !append_assoc. cbn [append].
    rewrite (un_other Csv.dquote) by reflexivity.
    rewrite un_escape. reflexivity.
  - rewrite (un_plain f t N), (un_plain_id f N). reflexivity.
Qed.

Lemma un_join_fields (fs : list string) (t : string) :
  Csv.universal_newlines (Csv.join_fields fs ++ t)
  = (Csv.join_fields (map Csv.universal_newlines fs)
     ++ Csv.universal_newlines t)%string.
Proof.
  induction fs as [|f fs IH]; [reflexivity|].
  destruct fs as [|f2 fs].
  - apply un_quote_field.
  - change (Csv.join_fields (f :: f2 :: fs))
      with (Csv.quote_field f ++ String Csv.comma (Csv.join_fields (f2 :: fs)))%string.
    change (Csv.join_fields (map Csv.universal_newlines (f :: f2 :: fs)))
      with (Csv.quote_field (Csv.universal_newlines f)
            ++ String Csv.comma
                 (Csv.join_fields (map Csv.universal_newlines (f2 :: fs))))%string.
    rewrite !append_assoc. cbn [append].
    rewrite un_quote_field. rewrite (un_other Csv.comma) by reflexivity.
    rewrite IH. reflexivity.
Qed.

(** *** The reader on one written field *)

Lemma finish_field (st : Csv.pstate) (u : string) (acc : list string)
      (b : bool) (t : string) :
  st = Csv.IN_FIELD \/ st = Csv.QUOTE_IN_QUOTED_FIELD \/ st = Csv.START_FIELD ->
  terminated t ->
  Csv.read (Csv.Build_parser st u acc) b t = after_field (acc ++ [u]) t.
Proof.
  intros Hst (t' & [->| ->]); destruct Hst as [->|[->| ->]]; reflexivity.
Qed.

Lemma special_inv (c : ascii) :
  Csv.special c = false ->
  Ascii.eqb c Csv.comma = false /\ Ascii.eqb c Csv.dquote = false /\
  Ascii.eqb c Csv.CR = false /\ Ascii.eqb c Csv.LF = false.
Proof.
  unfold Csv.special. intros H.
  repeat (apply orb_false_iff in H; destruct H as [H ?]). auto.
Qed.

(** *** The field size limit *)

Lemma length_append (a b : string) :
  String.length (a ++ b) = String.length a + String.length b.
Proof. induction a as [|c a IH]; cbn; [|rewrite IH]; reflexivity. Qed.


(** A field that is not complete yet leaves room for a character. *)
Lemma add_char_to (st st' : Csv.pstate) (c : ascii) (u f : string)
      (acc : list string) :
  within_limit (u ++ String c f) ->
  Csv.add_char st' c (Csv.Build_parser st u acc)
  = Some (Csv.Build_parser st' (u ++ String c "") acc).
Proof.
  unfold within_limit, Csv.add_char. rewrite length_append.
  cbn [String.length Csv.field Csv.fields Csv.state]. intros H.
  replace (N.of_nat (String.length u) <? Csv.field_size_limit)%N with true;
    [reflexivity|].
  symmetry. apply N.ltb_lt. lia.
Qed.




Lemma read_plain_char (st : Csv.pstate) (c : ascii) (u f : string)
      (acc : list string) (b : bool) (s : string) :
  st = Csv.IN_FIELD \/ st = Csv.START_FIELD ->
  Csv.special c = false ->
  within_limit (u ++ String c f) ->
  Csv.read (Csv.Build_parser st u acc) b (String c s)
  = Csv.read (Csv.Build_parser Csv.IN_FIELD (u ++ String c "") acc) true s.
Proof.
  intros Hst H W. destruct (special_inv c H) as (H1 & H2 & H3 & H4).
  destruct Hst as [-> | ->];
    cbn [Csv.read Csv.process_char Csv.state Csv.breaks Csv.is_newline
         Csv.is_char];
    unfold Csv.is_newline; rewrite ?H1, ?H2, ?H3, ?H4; cbv iota;
    cbn [orb]; rewrite (add_char_to _ Csv.IN_FIELD c u f acc W);
    rewrite ?H4; reflexivity.
Qed.

Lemma read_unquoted (f : string) :
  forall u acc b t,
    Csv.needs_quote f = false -> terminated t ->
    within_limit (u ++ f) ->
    Csv.read (Csv.Build_parser Csv.IN_FIELD u acc) b (f ++ t)
    = after_field (acc ++ [(u ++ f)%string]) t.
Proof.
  induction f as [|c f IH]; intros u acc b t N T W.
  - rewrite append_empty_r. apply finish_field; auto.
  - cbn [Csv.needs_quote] in N. apply orb_false_iff in N. destruct N as [Nc Nf].
    cbn [append]. rewrite (read_plain_char _ c u f) by auto.
    rewrite (IH _ acc true t Nf T);
      rewrite append_assoc; [reflexivity|exact W].
Qed.

Lemma read_quoted (f : string) :
  forall u acc b t,
    terminated t ->
    within_limit (u ++ f) ->
    Csv.read (Csv.Build_parser Csv.IN_QUOTED_FIELD u acc) b
             (Csv.escape f ++ String Csv.dquote t)
    = after_field (acc ++ [(u ++ f)%string]) t.
Proof.
  induction f as [|c f IH]; intros u acc b t T W.
  - rewrite append_empty_r. cbn [Csv.escape append].
    rewrite <- (finish_field Csv.QUOTE_IN_QUOTED_FIELD u acc true t) by auto.
    reflexivity.
  - assert (W' : within_limit ((u ++ String c "") ++ f))
      by (rewrite append_assoc; exact W).
    destruct (Ascii.eqb c Csv.dquote) eqn:Q.
    + apply Ascii.eqb_eq in Q. subst c. rewrite escape_dquote. cbn [append].
      rewrite (append_assoc_cons u Csv.dquote f).
      rewrite <- (IH (u ++ String Csv.dquote "")%string acc true t T W').
      cbn [Csv.read Csv.process_char Csv.state Csv.goto Csv.is_char
           Csv.field Csv.fields].
      change (Ascii.eqb Csv.dquote Csv.dquote) with true. cbv iota.
      change (Ascii.eqb Csv.dquote Csv.LF) with false. cbv iota.
      unfold Csv.goto.
      cbn [Csv.process_char Csv.state Csv.is_char Csv.field Csv.fields].
      change (Ascii.eqb Csv.dquote Csv.dquote) with true. cbv iota.
      rewrite (add_char_to Csv.QUOTE_IN_QUOTED_FIELD Csv.IN_QUOTED_FIELD
                           Csv.dquote u f acc W).
      reflexivity.
    + rewrite (escape_other c f Q). cbn [append].
      rewrite (append_assoc_cons u c f).
      destruct (Ascii.eqb c Csv.LF) eqn:L.
      * rewrite <- (IH (u ++ String c "")%string acc false t T W').
        cbn [Csv.read Csv.process_char Csv.state]. rewrite Q.
        rewrite (add_char_to Csv.IN_QUOTED_FIELD Csv.IN_QUOTED_FIELD
                             c u f acc W).
        rewrite L. reflexivity.
      * rewrite <- (IH (u ++ String c "")%string acc true t T W').
        cbn [Csv.read Csv.process_char Csv.state]. rewrite Q.
        rewrite (add_char_to Csv.IN_QUOTED_FIELD Csv.IN_QUOTED_FIELD
                             c u f acc W).
        rewrite L. reflexivity.
Qed.

Lemma read_field (f : string) (acc : list string) (b : bool) (t : string) :
  terminated t ->
  within_limit f ->
  Csv.read (Csv.Build_parser Csv.START_FIELD "" acc) b (Csv.quote_field f ++ t)
  = after_field (acc ++ [f]) t.
Proof.
  intros T W. unfold Csv.quote_field. destruct (Csv.needs_quote f) eqn:N.
  - cbn [append]. rewrite append_assoc. cbn [append].
    pose proof (read_quoted f "" acc true t T W) as E. cbn [append] in E.
    rewrite <- E. reflexivity.
  - destruct f as [|c f].
    + apply finish_field; auto.
    + cbn [Csv.needs_quote] in N. apply orb_false_iff in N.
      destruct N as [Nc Nf]. cbn [append].
      rewrite (read_plain_char _ c "" f) by auto.
      apply (read_unquoted f (String c "") acc true t Nf T W).
Qed.

(** *** The reader on written rows *)

Lemma read_fields (fs : list string) :
  forall acc b rest,
    fs <> [] ->
    Forall within_limit fs ->
    Csv.read (Csv.Build_parser Csv.START_FIELD "" acc) b
             (Csv.join_fields fs ++ String Csv.LF rest)
    = Csv.yield (acc ++ fs) (Csv.read Csv.fresh false rest).
Proof.
  induction fs as [|f fs IH]; intros acc b rest Hne W; [congruence|].
  inversion W as [|? ? Wf Wfs]; subst.
  destruct fs as [|f2 fs].
  - cbn [Csv.join_fields]. rewrite read_field by (auto; exists rest; auto).
    reflexivity.
  - change (Csv.join_fields (f :: f2 :: fs))
      with (Csv.quote_field f ++ String Csv.comma (Csv.join_fields (f2 :: fs)))%string.
    rewrite append_assoc. cbn [append].
    rewrite read_field by (auto; eexists; left; reflexivity).
    cbn [after_field]. change (Ascii.eqb Csv.comma Csv.comma) with true. cbv iota.
    rewrite IH by (auto; discriminate).
    rewrite <- app_assoc. reflexivity.
Qed.

Lemma read_start_record (x : ascii) (u : string) (acc : list string)
      (b : bool) (s : string) :
  Csv.is_newline x = false ->
  Csv.read (Csv.Build_parser Csv.START_RECORD u acc) b (String x s)
  = Csv.read (Csv.Build_parser Csv.START_FIELD u acc) b (String x s).
Proof.
  intros H. cbn [Csv.read Csv.process_char Csv.state Csv.breaks].
  rewrite H. reflexivity.
Qed.

Lemma quote_field_head (f t : string) :
  exists x s, (Csv.quote_field f ++ String Csv.comma t)%string = String x s /\
              Csv.is_newline x = false.
Proof.
  unfold Csv.quote_field. destruct (Csv.needs_quote f) eqn:N.
  - eexists _, _. split; reflexivity.
  - destruct f as [|c f].
    + eexists _, _. split; reflexivity.
    + cbn [Csv.needs_quote] in N. apply orb_false_iff in N. destruct N as [Nc _].
      destruct (special_inv c Nc) as (_ & _ & H3 & H4).
      eexists _, _. split; [reflexivity|].
      unfold Csv.is_newline. rewrite H3, H4. reflexivity.
Qed.

Lemma read_row_start (f f2 : string) (fs : list string) (b : bool)
      (rest : string) :
  Csv.read Csv.fresh b (Csv.join_fields (f :: f2 :: fs) ++ rest)
  = Csv.read (Csv.Build_parser Csv.START_FIELD "" []) b
             (Csv.join_fields (f :: f2 :: fs) ++ rest).
Proof.
  change (Csv.join_fields (f :: f2 :: fs))
    with (Csv.quote_field f ++ String Csv.comma (Csv.join_fields (f2 :: fs)))%string.
  rewrite append_assoc. cbn [append].
  destruct (quote_field_head f (Csv.join_fields (f2 :: fs) ++ rest))
    as (x & s & E & Hx).
  rewrite E. apply read_start_record, Hx.
Qed.

Lemma read_row (f f2 : string) (fs : list string) (b : bool) (rest : string) :
  Forall within_limit (f :: f2 :: fs) ->
  Csv.read Csv.fresh b (Csv.join_fields (f :: f2 :: fs) ++ String Csv.LF rest)
  = Csv.yield (f :: f2 :: fs) (Csv.read Csv.fresh false rest).
Proof.
  intros W. rewrite read_row_start.
  apply (read_fields (f :: f2 :: fs) [] b rest); [discriminate|exact W].
Qed.

Lemma writerow_wide (f f2 : string) (fs : list string) :
  Csv.writerow (f :: f2 :: fs)
  = (Csv.join_fields (f :: f2 :: fs) ++ String Csv.CR (String Csv.LF ""))%string.
Proof. unfold Csv.writerow. destruct f; reflexivity. Qed.

(** Sound rows come back as written, except that the line breaks
    inside the fields are read as line feeds. *)
Lemma reader_writerows (rows : list (list string)) :
  Forall sound_row rows ->
  Csv.reader (Csv.writerows rows)
  = (map (map Csv.universal_newlines) rows, Csv.EndOfFile).
Proof.
  unfold Csv.reader. induction 1 as [|row rows [Hrow Wrow] _ IH]; [reflexivity|].
  destruct row as [|f [|f2 fs]]; cbn [List.length] in Hrow; try lia.
  cbn [Csv.writerows]. rewrite writerow_wide.
  rewrite append_assoc. cbn [append].
  rewrite un_join_fields, un_CR_LF.
  change (map Csv.universal_newlines (f :: f2 :: fs))
    with (Csv.universal_newlines f :: Csv.universal_newlines f2
            :: map Csv.universal_newlines fs).
  rewrite read_row, IH; [reflexivity|].
  change (Forall within_limit (map Csv.universal_newlines (f :: f2 :: fs))).
  apply Forall_map. exact Wrow.
Qed.

(** ** What the extractor returns can be stored as it is *)

Lemma collapse_ws_plain (s : string) : plain_spaces (collapse_ws s).
Proof.
  induction s as [s IH] using by_length.
  destruct s as [|c s]; [exact I|].
  destruct (Py.isspace c) eqn:E.
  - rewrite collapse_ws_space by exact E. split; [reflexivity|].
    apply IH. pose proof (lstrip_length s). cbn [String.length]. lia.
  - rewrite collapse_ws_other by exact E. split; [congruence|].
    apply IH. cbn [String.length]. lia.
Qed.


Lemma extract_in_inv (text x : string) :
  In x (extract_phone_from_text text) ->
  exists phone, x = normalize_text phone /\ looks_german x = true.
Proof.
  unfold extract_phone_from_text. intros H.
  apply fold_keep_valid_in in H. destruct H as [[]|(phone & _ & Hc)].
  apply clean_some_inv in Hc. destruct Hc. eauto.
Qed.


Section CrawlProps.

Variable list_of_set : list string -> list string.
Hypothesis list_of_set_perm :
  forall l, Permutation (list_of_set l) (nodup string_dec l).
Variable world : Type.
Variable http_get : string -> world -> option page * world.
Variable urljoin : string -> string -> option string.




Lemma scrape_try_spec (u : string) (w : world) :
  match gather world http_get urljoin u w with
  | (None, w1) =>
      scrape_try list_of_set world http_get urljoin u w = (Raised, w1)
  | (Some found, w1) =>
      (found = [] /\
       scrape_try list_of_set world http_get urljoin u w = (Returned None, w1))
      \/
      (exists r, In r found /\
                 select_best_phone list_of_set found = Returned (Some r) /\
                 scrape_try list_of_set world http_get urljoin u w
                 = (Returned (Some r), w1))
  end.
Proof.
  unfold scrape_try.
  destruct (gather world http_get urljoin u w) as [[found|] w1]; [|reflexivity].
  destruct found as [|p ps]; [left; auto|right].
  destruct (select_member list_of_set list_of_set_perm (p :: ps))
    as (r & S & I); [discriminate|].
  exists r. rewrite S. auto.
Qed.

(** [scrape_website] returns nothing exactly when no candidate was
    found, and otherwise the selector's choice among the candidates. *)
Lemma scrape_website_spec (url : string) (w : world) :
  let found := fst (candidates_found world http_get urljoin url w) in
  let w' := snd (candidates_found world http_get urljoin url w) in
  (found = [] /\
   scrape_website list_of_set world http_get urljoin url w = (None, w'))
  \/
  (exists r, In r found /\
             select_best_phone list_of_set found = Returned (Some r) /\
             scrape_website list_of_set world http_get urljoin url w
             = (Some r, w')).
Proof.
  unfold scrape_website, candidates_found.
  pose proof (scrape_try_spec (test_url "https://" (with_protocol url)) w) as T1.
  destruct (gather world http_get urljoin
              (test_url "https://" (with_protocol url)) w)
    as [[found|] w1].
  - cbn [fst snd].
    destruct T1 as [[-> ->]|(r & I & S & ->)]; [left; auto|right; eauto].
  - rewrite T1.
    pose proof (scrape_try_spec (test_url "http://" (with_protocol url)) w1) as T2.
    destruct (gather world http_get urljoin
                (test_url "http://" (with_protocol url)) w1)
      as [[found|] w2]; cbn [fst snd].
    + destruct T2 as [[-> ->]|(r & I & S & ->)]; [left; auto|right; eauto].
    + rewrite T2. left. auto.
Qed.


End CrawlProps.

Section TableProps.

Variable list_of_set : list string -> list string.
Hypothesis list_of_set_perm :
  forall l, Permutation (list_of_set l) (nodup string_dec l).
Variable world : Type.
Variable http_get : string -> world -> option page * world.
Variable urljoin : string -> string -> option string.

Lemma wide_rows_kept (rows : list (list string)) :
  Forall (fun row => 2 <= List.length row) rows ->
  filter (fun row : list string => match row with [] => false | _ => true end)
         rows = rows.
Proof.
  induction 1 as [|row rows H _ IH]; [reflexivity|].
  cbn [filter]. rewrite IH. destruct row; [cbn in H; lia|reflexivity].
Qed.

Lemma read_back_save_results (results : list (list string)) :
  Forall sound_row results ->
  read_back (save_results results)
  = (map (fun row => Csv.dict_row ["company_name"; "website"; "phone"]
                                  (map Csv.universal_newlines row))
         results,
     Csv.EndOfFile).
Proof.
  intros H. unfold read_back, Csv.DictReader, save_results.
  change (Csv.writerow ["company_name"; "website"; "phone"]
          ++ Csv.writerows results)%string
    with (Csv.writerows (["company_name"; "website"; "phone"] :: results)).
  rewrite reader_writerows.
  - cbn [map]. rewrite wide_rows_kept.
    + rewrite map_map. reflexivity.
    + clear -H. induction H as [|row rows [Hr _] _ IH]; constructor; [|exact IH].
      rewrite length_map. exact Hr.
  - constructor; [|exact H]. split; [cbn; lia|].
    repeat constructor; unfold within_limit; cbn; discriminate.
Qed.



End TableProps.


(** The same run, evaluated. *)
Example table_round_trip_example :
  let run :=
    process_csv (nodup string_dec) unit example_web
                (fun base href => Some href)
                (map full_row
                     [("A GmbH", "a.example"); ("B AG", "b.example");
                      ("", "c.example")])
                None tt in
  snd run = None /\
  option_map read_back (fst (fst run))
  = Some ([table_row ("A GmbH", "a.example", "030 9999999");
           table_row ("B AG", "b.example", "")], Csv.EndOfFile).
Proof. vm_compute. split; reflexivity. Qed.

(* ================================================================== *)
(** * Further properties                                               *)
(* ================================================================== *)

(** ** The extractor's result *)

Lemma mem_false_not_In (x : string) (l : list string) :
  Py.mem x l = false -> ~ In x l.
Proof.
  unfold Py.mem. intros H I.
  assert (E : existsb (String.eqb x) l = true).
  { apply existsb_exists. exists x. split; [exact I|apply String.eqb_refl]. }
  congruence.
Qed.

Lemma keep_valid_NoDup (valid : list string) (phone : string) :
  NoDup valid -> NoDup (keep_valid valid phone).
Proof.
  intros H. unfold keep_valid.
  destruct (clean_phone_number (Some phone)) as [cleaned|]; [|exact H].
  destruct (Py.truthy cleaned); cbn [andb]; [|exact H].
  destruct (Py.mem cleaned valid) eqn:M; cbn [negb]; [exact H|].
  destruct (negb (Py.contains "fax" (Py.lower phone))); [|exact H].
  apply NoDup_app; [exact H| repeat constructor; intros [] | ].
  intros x Hx [<-|[]]. exact (mem_false_not_In _ _ M Hx).
Qed.

(** X1: the list the extractor returns never holds the same number
    twice. *)
Theorem extract_no_duplicates (text : string) :
  NoDup (extract_phone_from_text text).
Proof.
  unfold extract_phone_from_text.
  generalize (labelled_candidates text ++ structural_candidates text).
  intros phones.
  assert (G : forall valid, NoDup valid -> NoDup (fold_left keep_valid phones valid)).
  { induction phones as [|p ps IH]; intros valid H; [exact H|].
    apply IH, keep_valid_NoDup, H. }
  apply G. constructor.
Qed.

Lemma collapse_ws_head (s : string) :
  lead_ok s -> lead_ok (collapse_ws s).
Proof. apply collapse_ws_lead_ok. Qed.

Lemma collapse_ws_single (s : string) : single_spaced (collapse_ws s).
Proof.
  induction s as [s IH] using by_length.
  destruct s as [|c s]; [exact I|].
  destruct (Py.isspace c) eqn:E.
  - rewrite collapse_ws_space by exact E.
    assert (L : String.length (Py.lstrip s) < String.length (String c s))
      by (pose proof (lstrip_length s); cbn [String.length]; lia).
    pose proof (IH _ L) as S1.
    pose proof (collapse_ws_lead_ok _ (lstrip_lead_ok s)) as L1.
    destruct (collapse_ws (Py.lstrip s)) as [|d t]; [exact I|].
    split; [intros _; exact L1|exact S1].
  - rewrite collapse_ws_other by exact E.
    assert (L : String.length s < String.length (String c s))
      by (cbn [String.length]; lia).
    pose proof (IH _ L) as S1.
    destruct (collapse_ws s) as [|d t]; [exact I|].
    split; [congruence|exact S1].
Qed.

Lemma looks_german_start (c : ascii) (s : string) :
  looks_german (String c s) = true -> number_start c = true.
Proof.
  destruct (number_start c) eqn:N; [reflexivity|]. intros H. exfalso.
  unfold number_start in N.
  apply orb_false_iff in N. destruct N as [N Hd].
  apply orb_false_iff in N. destruct N as [Hp Hq].
  assert (H0 : Ascii.eqb c "0" = false).
  { destruct (Ascii.eqb c "0") eqn:E; [|reflexivity].
    apply Ascii.eqb_eq in E. subst c. discriminate Hd. }
  revert H. unfold looks_german, phone_patterns, Re.matches, Re.attempt.
  cbn [existsb Re.cat Re.lit Re.run Re.rep Re.in_charset digits andb].
  rewrite ?Hp, ?Hq, ?Hd, ?H0. cbn [andb orb Nat.eqb]. discriminate.
Qed.

(** ** What a pattern matches *)

Section MatcherMeaning.
Variable ic : bool.

Lemma rep_sound (cs : Re.charset) (s : string) :
  forall lo hi k res,
    Re.rep ic cs lo hi s k = Some res ->
    exists pre s',
      s = (pre ++ s')%string /\ Spells ic (Re.Rep cs lo hi) pre /\
      k s' = Some res.
Proof.
  induction s as [|c s IH]; intros lo hi k res H.
  - cbn [Re.rep] in H. destruct (Nat.eqb_spec lo 0) as [->|]; [|discriminate].
    exists "", "". repeat split; [|exact H].
    constructor; [reflexivity|cbn; lia|destruct hi; cbn; [lia|exact I]].
  - cbn [Re.rep] in H.
    assert (Stop : (if (lo =? 0)%nat then k (String c s) else None) = Some res ->
                   exists pre s',
                     String c s = (pre ++ s')%string /\
                     Spells ic (Re.Rep cs lo hi) pre /\ k s' = Some res).
    { intros E. destruct (Nat.eqb_spec lo 0) as [->|]; [|discriminate].
      exists "", (String c s). repeat split; [|exact E].
      constructor; [reflexivity|cbn; lia|destruct hi; cbn; [lia|exact I]]. }
    destruct (match hi with Some 0 => false | _ => true end
              && Re.in_charset ic cs c) eqn:M; [|exact (Stop H)].
    apply andb_true_iff in M. destruct M as [Mh Mc].
    destruct (Re.rep ic cs (pred lo) (option_map pred hi) s k) as [x|] eqn:R;
      [|exact (Stop H)].
    injection H as ->.
    destruct (IH _ _ _ _ R) as (pre & s' & -> & Sp & K).
    exists (String c pre), s'. repeat split; [|exact K].
    inversion Sp as [| |? ? ? ? A Lo Hi| | | |]; subst.
    constructor.
    + cbn [all_chars]. rewrite Mc, A. reflexivity.
    + cbn [String.length]. lia.
    + destruct hi as [[|h]|]; cbn in *; try discriminate; try lia; exact I.
Qed.

Lemma rep_complete (cs : Re.charset) (pre : string) :
  forall s' lo hi k,
    Spells ic (Re.Rep cs lo hi) pre ->
    k s' <> None ->
    Re.rep ic cs lo hi (pre ++ s') k <> None.
Proof.
  assert (Zero : forall s hi k, k s <> None -> Re.rep ic cs 0 hi s k <> None).
  { intros s hi k K. destruct s as [|c s]; cbn [Re.rep Nat.eqb]; [exact K|].
    destruct (match hi with Some 0 => false | _ => true end
              && Re.in_charset ic cs c); [|exact K].
    destruct (Re.rep ic cs (pred 0) (option_map pred hi) s k);
      [discriminate|exact K]. }
  induction pre as [|c pre IH]; intros s' lo hi k Sp K;
    inversion Sp as [| |? ? ? ? A Lo Hi| | | |]; subst.
  - cbn [String.length] in Lo. assert (lo = 0) by lia. subst lo.
    apply Zero, K.
  - cbn [all_chars] in A. apply andb_true_iff in A. destruct A as [Ac Ap].
    cbn [append Re.rep]. rewrite Ac.
    assert (More : match hi with Some 0 => false | _ => true end = true).
    { destruct hi as [[|h]|]; cbn in Hi; try reflexivity. lia. }
    rewrite More. cbn [andb].
    assert (R : Re.rep ic cs (pred lo) (option_map pred hi) (pre ++ s') k <> None).
    { apply IH; [|exact K]. constructor; [exact Ap| cbn in Lo; lia |].
      destruct hi as [h|]; cbn in *; [lia|exact I]. }
    destruct (Re.rep ic cs (pred lo) (option_map pred hi) (pre ++ s') k);
      [discriminate|congruence].
Qed.

Lemma run_sound (r : Re.regex) :
  forall g s k res,
    Re.run ic r g s k = Some res ->
    exists pre s' g',
      s = (pre ++ s')%string /\ Spells ic r pre /\ k g' s' = Some res.
Proof.
  induction r as [|cs|cs lo hi|r1 IH1 r2 IH2|r1 IH1 r2 IH2|r IH];
    intros g s k res H; cbn [Re.run] in H.
  - exists "", s, g. repeat split; [constructor|exact H].
  - destruct s as [|c s]; [discriminate|].
    destruct (Re.in_charset ic cs c) eqn:E; [|discriminate].
    exists (String c ""), s, g. repeat split; [constructor; exact E|exact H].
  - destruct (rep_sound _ _ _ _ _ _ H) as (pre & s' & -> & Sp & K).
    exists pre, s', g. auto.
  - destruct (IH1 _ _ _ _ H) as (a & s1 & g1 & -> & Sa & K1).
    destruct (IH2 _ _ _ _ K1) as (b & s2 & g2 & -> & Sb & K2).
    exists (a ++ b)%string, s2, g2. rewrite append_assoc.
    repeat split; [constructor; assumption|exact K2].
  - destruct (Re.run ic r1 g s k) as [x|] eqn:R1.
    + injection H as ->.
      destruct (IH1 _ _ _ _ R1) as (a & s1 & g1 & -> & Sa & K1).
      exists a, s1, g1. repeat split; [apply Spells_AltL; exact Sa|exact K1].
    + destruct (IH2 _ _ _ _ H) as (a & s1 & g1 & -> & Sa & K1).
      exists a, s1, g1. repeat split; [apply Spells_AltR; exact Sa|exact K1].
  - destruct (IH _ _ _ _ H) as (a & s1 & g1 & -> & Sa & K1).
    eexists a, s1, _. repeat split; [constructor; exact Sa|exact K1].
Qed.

Lemma run_complete (r : Re.regex) :
  forall pre, Spells ic r pre ->
  forall g s' k,
    (forall g', k g' s' <> None) ->
    Re.run ic r g (pre ++ s') k <> None.
Proof.
  induction 1 as [|cs c E|cs lo hi pre A Lo Hi|r1 r2 a b Sa IHa Sb IHb
                  |r1 r2 a Sa IHa|r1 r2 a Sa IHa|r a Sa IHa];
    intros g s' k K; cbn [Re.run].
  - apply K.
  - cbn [append]. rewrite E. apply K.
  - apply rep_complete; [constructor; assumption|apply K].
  - rewrite append_assoc. apply IHa. intros g'. apply IHb, K.
  - pose proof (IHa g s' k K) as R.
    destruct (Re.run ic r1 g (a ++ s') k); [discriminate|congruence].
  - destruct (Re.run ic r1 g (a ++ s') k); [discriminate|apply IHa, K].
  - apply IHa. intros g'. apply K.
Qed.

(** [re.match] succeeds exactly when the subject begins with a text
    the pattern stands for. *)
Lemma matches_iff (r : Re.regex) (s : string) :
  Re.matches ic r s = true <->
  exists pre s', s = (pre ++ s')%string /\ Spells ic r pre.
Proof.
  unfold Re.matches, Re.attempt. cbn [andb]. split.
  - destruct (Re.run ic r None s (fun g s' => Some (g, s'))) as [res|] eqn:R;
      [|discriminate]. intros _.
    destruct (run_sound _ _ _ _ _ R) as (pre & s' & g' & E & Sp & _). eauto.
  - intros (pre & s' & -> & Sp).
    pose proof (run_complete r pre Sp None s' (fun g s' => Some (g, s'))) as C.
    destruct (Re.run ic r None (pre ++ s') (fun g s' => Some (g, s')));
      [reflexivity|].
    exfalso. apply C; [discriminate|reflexivity].
Qed.

End MatcherMeaning.

(** X4: the validation loop looks at the beginning only: whatever is
    put after a string that passes, the longer string passes too. *)
Theorem validation_ignores_tail (phone rest : string) :
  looks_german phone = true -> looks_german (phone ++ rest) = true.
Proof.
  unfold looks_german. intros H.
  apply existsb_exists in H. destruct H as (pattern & I & M).
  apply existsb_exists. exists pattern. split; [exact I|].
  apply matches_iff in M. destruct M as (pre & s' & -> & Sp).
  apply matches_iff. exists pre, (s' ++ rest)%string.
  rewrite append_assoc. auto.
Qed.

(** ** The characters of a candidate *)

Lemma every_char_spec (p : ascii -> bool) :
  every_char p = true -> forall c, p c = true.
Proof.
  unfold every_char. intros H c.
  rewrite <- (ascii_nat_embedding c).
  apply (proj1 (forallb_forall _ _) H).
  apply in_seq. pose proof (nat_ascii_bounded c). lia.
Qed.

Lemma charset_within_spec (ic : bool) (ok : ascii -> bool) (cs : Re.charset) :
  charset_within ic ok cs = true ->
  forall c, Re.in_charset ic cs c = true -> ok c = true.
Proof.
  unfold charset_within. intros H c E.
  pose proof (every_char_spec _ H c) as I.
  cbv beta in I. rewrite E in I. exact I.
Qed.

Lemma all_chars_app (ok : ascii -> bool) (a b : string) :
  all_chars ok (a ++ b) = all_chars ok a && all_chars ok b.
Proof.
  induction a as [|c a IH]; [reflexivity|].
  cbn [append all_chars]. rewrite IH, andb_assoc. reflexivity.
Qed.

Lemma all_chars_weaken (p q : ascii -> bool) (s : string) :
  (forall c, p c = true -> q c = true) ->
  all_chars p s = true -> all_chars q s = true.
Proof.
  intros W. induction s as [|c s IH]; [reflexivity|]. cbn [all_chars].
  intros H. apply andb_true_iff in H. destruct H as [Hc Hs].
  rewrite (W c Hc), (IH Hs). reflexivity.
Qed.

Lemma spells_within (ic : bool) (ok : ascii -> bool) (r : Re.regex) (pre : string) :
  Spells ic r pre -> within ic ok r = true -> all_chars ok pre = true.
Proof.
  induction 1 as [|cs c E|cs lo hi pre A Lo Hi|r1 r2 a b Sa IHa Sb IHb
                  |r1 r2 a Sa IHa|r1 r2 a Sa IHa|r a Sa IHa];
    cbn [within]; intros W.
  - reflexivity.
  - cbn [all_chars]. rewrite (charset_within_spec _ _ _ W c E). reflexivity.
  - exact (all_chars_weaken _ _ _ (charset_within_spec _ _ _ W) A).
  - apply andb_true_iff in W. destruct W as [W1 W2].
    rewrite all_chars_app, (IHa W1), (IHb W2). reflexivity.
  - apply andb_true_iff in W. destruct W as [W1 W2]. exact (IHa W1).
  - apply andb_true_iff in W. destruct W as [W1 W2]. exact (IHa W2).
  - exact (IHa W).
Qed.

Lemma substring_app (pre s : string) :
  substring 0 (String.length pre) (pre ++ s) = pre.
Proof.
  induction pre as [|c pre IH]; cbn [String.length append substring].
  - destruct s; reflexivity.
  - rewrite IH. reflexivity.
Qed.

Lemma consumed_app (pre s : string) : Re.consumed (pre ++ s) s = pre.
Proof.
  unfold Re.consumed. rewrite length_append.
  replace (String.length pre + String.length s - String.length s)
    with (String.length pre) by lia.
  apply substring_app.
Qed.

(** What an attempt consumed is a text of the pattern. *)
Lemma attempt_spells (ic : bool) (r : Re.regex) (b : bool) (s : string)
      (g : option string) (s1 : string) :
  Re.attempt ic r b s = Some (g, s1) ->
  Spells ic r (Re.consumed s s1) /\ s = (Re.consumed s s1 ++ s1)%string.
Proof.
  unfold Re.attempt. intros H.
  destruct (run_sound _ _ _ _ _ _ H) as (pre & s' & g' & -> & Sp & K).
  destruct (b && (String.length s' =? String.length (pre ++ s'))%nat);
    [discriminate|].
  injection K as <- <-. rewrite consumed_app. auto.
Qed.

Lemma scan_hits_spell (ic : bool) (r : Re.regex) (s : string) :
  forall skip w g,
    In (Re.Hit w g) (Re.scan ic r skip s) -> Spells ic r w.
Proof.
  induction s as [|c s IH]; intros skip w g; destruct skip as [|n];
    cbn [Re.scan].
  - destruct (Re.attempt ic r false "") as [[g1 s1]|] eqn:A; [|intros []].
    apply attempt_spells in A. destruct A as [Sp _].
    destruct (String.length (Re.consumed "" s1));
      intros [[= <- <-]|[]]; exact Sp.
  - intros [].
  - destruct (Re.attempt ic r false (String c s)) as [[g1 s1]|] eqn:A.
    + apply attempt_spells in A. destruct A as [Sp _].
      destruct (String.length (Re.consumed (String c s) s1)).
      * intros [[= <- <-]|H]; [exact Sp|].
        destruct (Re.attempt ic r true (String c s)) as [[g2 s2]|] eqn:A2.
        -- apply attempt_spells in A2. destruct A2 as [Sp2 _].
           destruct H as [[= <- <-]|H]; [exact Sp2|exact (IH _ _ _ H)].
        -- destruct H as [[=]|H]. exact (IH _ _ _ H).
      * intros [[= <- <-]|H]; [exact Sp|exact (IH _ _ _ H)].
    + intros [[=]|H]. exact (IH _ _ _ H).
  - apply IH.
Qed.

Lemma structural_alphabet (text phone : string) :
  In phone (structural_candidates text) ->
  all_chars phone_alphabet phone = true.
Proof.
  unfold structural_candidates. intros H.
  apply in_flat_map in H. destruct H as (pattern & I & F).
  assert (C : Re.has_cap pattern = false /\
              within false phone_alphabet pattern = true).
  { assert (A : forallb (fun p => negb (Re.has_cap p)
                                  && within false phone_alphabet p)
                        phone_patterns = true) by (vm_compute; reflexivity).
    pose proof (proj1 (forallb_forall _ _) A pattern I) as P.
    apply andb_true_iff in P. destruct P as [P1 P2].
    apply negb_true_iff in P1. auto. }
  destruct C as [C1 C2].
  unfold Re.findall in F. apply in_flat_map in F.
  destruct F as ([c|w g] & Hp & Hx); [destruct Hx|].
  rewrite C1 in Hx. destruct Hx as [<-|[]].
  apply (spells_within false _ pattern); [|exact C2].
  exact (scan_hits_spell _ _ _ _ _ _ Hp).
Qed.

Lemma all_chars_lstrip (ok : ascii -> bool) (s : string) :
  all_chars ok s = true -> all_chars ok (Py.lstrip s) = true.
Proof.
  induction s as [|c s IH]; [reflexivity|]. cbn [Py.lstrip].
  destruct (Py.isspace c); [|auto]. cbn [all_chars]. intros H.
  apply andb_true_iff in H. apply IH, H.
Qed.

Lemma all_chars_rstrip (ok : ascii -> bool) (s : string) :
  all_chars ok s = true -> all_chars ok (Py.rstrip s) = true.
Proof.
  induction s as [|c s IH]; [reflexivity|]. cbn [all_chars]. intros H.
  apply andb_true_iff in H. destruct H as [Hc Hs].
  change (Py.rstrip (String c s))
    with (match Py.rstrip s with
          | EmptyString => if Py.isspace c then EmptyString else String c EmptyString
          | r => String c r
          end).
  pose proof (IH Hs) as R. destruct (Py.rstrip s) as [|d r].
  - destruct (Py.isspace c); cbn [all_chars]; [reflexivity|].
    rewrite Hc. reflexivity.
  - cbn [all_chars] in *. rewrite Hc. exact R.
Qed.

Lemma all_chars_strip (ok : ascii -> bool) (s : string) :
  all_chars ok s = true -> all_chars ok (Py.strip s) = true.
Proof. intros H. apply all_chars_rstrip, all_chars_lstrip, H. Qed.

(** Removing the foreign characters leaves the characters of numbers. *)
Lemma sub_not_phone_char (m : string) :
  all_chars phone_alphabet (Re.sub false not_phone_char "" m) = true.
Proof.
  unfold Re.sub. induction m as [|c m IH]; [reflexivity|].
  cbn [Re.scan].
  destruct (Re.attempt false not_phone_char false (String c m))
    as [[g s1]|] eqn:A.
  - assert (E : s1 = m /\ g = None).
    { revert A. unfold Re.attempt, not_phone_char. cbn [Re.run andb].
      destruct (Re.in_charset false _ c); [|discriminate].
      intros [= <- <-]. auto. }
    destruct E as [-> ->].
    change (String c m) with (String c "" ++ m)%string.
    rewrite consumed_app. cbn [String.length Re.render fold_right append].
    exact IH.
  - cbn [Re.render fold_right all_chars]. fold (Re.render "" (Re.scan false not_phone_char 0 m)).
    rewrite IH, andb_true_r.
    revert A. unfold Re.attempt, not_phone_char. cbn [Re.run andb Re.in_charset].
    unfold phone_alphabet.
    destruct (Py.isdigit c); [reflexivity|].
    destruct (Py.isspace c); [reflexivity|].
    destruct (Ascii.eqb c "-"); [intros _; cbn; rewrite ?orb_true_r; reflexivity|].
    destruct (Ascii.eqb c "("); [intros _; cbn; rewrite ?orb_true_r; reflexivity|].
    destruct (Ascii.eqb c ")"); [intros _; cbn; rewrite ?orb_true_r; reflexivity|].
    destruct (Ascii.eqb c "+"); [intros _; cbn; rewrite ?orb_true_r; reflexivity|].
    cbn. discriminate.
Qed.

Lemma labelled_alphabet (text phone : string) :
  In phone (labelled_candidates text) ->
  all_chars phone_alphabet phone = true.
Proof.
  unfold labelled_candidates. intros H.
  apply in_flat_map in H. destruct H as (pattern & _ & F).
  apply in_flat_map in F. destruct F as (m & _ & Hx).
  destruct (Py.truthy (Py.strip (Re.sub false not_phone_char "" m)));
    [|destruct Hx].
  destruct Hx as [<-|[]]. apply all_chars_strip, sub_not_phone_char.
Qed.

Lemma no_f_no_fax (s : string) :
  all_chars (fun c => negb (Ascii.eqb c "f")) s = true ->
  Py.contains "fax" s = false.
Proof.
  induction s as [|c s IH]; [reflexivity|]. cbn [all_chars]. intros H.
  apply andb_true_iff in H. destruct H as [Hc Hs].
  cbn [Py.contains]. rewrite (IH Hs), orb_false_r.
  cbn [String.prefix]. destruct (ascii_dec "f" c) as [<-|]; [|reflexivity].
  discriminate Hc.
Qed.

Lemma lower_all_chars (ok : ascii -> bool) (s : string) :
  all_chars (fun c => ok (Py.lower_char c)) s = all_chars ok (Py.lower s).
Proof.
  induction s as [|c s IH]; [reflexivity|].
  cbn [Py.lower all_chars]. rewrite IH. reflexivity.
Qed.

(** X2: every candidate of the two search loops is made of digits,
    white space and [+ - ( ) /] only, so its lower-case form never
    contains "fax": the test on "fax" in the last loop rejects nothing. *)
Theorem candidates_never_mention_fax (text phone : string) :
  In phone (labelled_candidates text ++ structural_candidates text) ->
  all_chars phone_alphabet phone = true /\
  Py.contains "fax" (Py.lower phone) = false.
Proof.
  intros H.
  assert (A : all_chars phone_alphabet phone = true).
  { apply in_app_or in H. destruct H as [H|H];
      [exact (labelled_alphabet _ _ H)|exact (structural_alphabet _ _ H)]. }
  split; [exact A|].
  apply no_f_no_fax. rewrite <- lower_all_chars.
  revert A. apply all_chars_weaken. intros c Hc.
  assert (E : every_char
                (fun c => implb (phone_alphabet c)
                                (negb (Ascii.eqb (Py.lower_char c) "f")))
              = true) by (vm_compute; reflexivity).
  pose proof (every_char_spec _ E c) as I. cbv beta in I.
  rewrite Hc in I. exact I.
Qed.

(** ** Labels at the start *)

Lemma prefix_nil (s : string) : String.prefix "" s = true.
Proof. destruct s; reflexivity. Qed.

Lemma lower_app (a b : string) :
  Py.lower (a ++ b) = (Py.lower a ++ Py.lower b)%string.
Proof. induction a as [|c a IH]; cbn; [|rewrite IH]; reflexivity. Qed.

Lemma lower_length (s : string) : String.length (Py.lower s) = String.length s.
Proof. induction s as [|c s IH]; cbn; [|rewrite IH]; reflexivity. Qed.

Lemma drop_app (a s : string) : drop (String.length a) (a ++ s) = s.
Proof. induction a as [|c a IH]; cbn; [destruct s; reflexivity|exact IH]. Qed.

(** A literal in lower case, matched without regard to case. *)
Lemma run_lit_nocase (l : string) :
  Py.lower l = l ->
  forall subj g k,
    Re.run true (Re.lit l) g subj k
    = if String.prefix l (Py.lower subj) then k g (drop (String.length l) subj)
      else None.
Proof.
  induction l as [|c l IH]; intros Hl subj g k.
  - cbn [Re.lit Re.run String.length drop]. rewrite prefix_nil.
    destruct subj; reflexivity.
  - cbn [Py.lower] in Hl. injection Hl as Hc Hl'.
    assert (Step : forall k',
      Re.run true (Re.Atom (Re.Chr c)) g subj k'
      = match subj with
        | String d subj' =>
            if ascii_dec c (Py.lower_char d) then k' g subj' else None
        | EmptyString => None
        end).
    { intros k'. cbn [Re.run Re.in_charset]. destruct subj as [|d subj']; [reflexivity|].
      rewrite Hc. destruct (ascii_dec c (Py.lower_char d)) as [<-|N].
      - rewrite Ascii.eqb_refl. reflexivity.
      - destruct (Ascii.eqb_spec (Py.lower_char d) c); [congruence|reflexivity]. }
    destruct l as [|c2 l].
    + change (Re.lit (String c "")) with (Re.Atom (Re.Chr c)).
      etransitivity; [apply Step|]. destruct subj as [|d subj']; [reflexivity|].
      cbn [Py.lower String.prefix String.length drop].
      destruct (ascii_dec c (Py.lower_char d)); [|reflexivity].
      rewrite prefix_nil. destruct subj'; reflexivity.
    + change (Re.lit (String c (String c2 l)))
        with (Re.Seq (Re.Atom (Re.Chr c)) (Re.lit (String c2 l))).
      change (Re.run true
                (Re.Seq (Re.Atom (Re.Chr c)) (Re.lit (String c2 l))) g subj k)
        with (Re.run true (Re.Atom (Re.Chr c)) g subj
                (fun g' s' => Re.run true (Re.lit (String c2 l)) g' s' k)).
      etransitivity; [apply Step|].
      destruct subj as [|d subj']; [reflexivity|].
      change (Py.lower (String d subj'))
        with (String (Py.lower_char d) (Py.lower subj')).
      change (String.prefix (String c (String c2 l))
                            (String (Py.lower_char d) (Py.lower subj')))
        with (if ascii_dec c (Py.lower_char d)
              then String.prefix (String c2 l) (Py.lower subj') else false).
      destruct (ascii_dec c (Py.lower_char d)); [|reflexivity].
      rewrite (IH Hl'). reflexivity.
Qed.

Lemma scan_skip_app (ic : bool) (r : Re.regex) (a s : string) :
  Re.scan ic r (String.length a) (a ++ s) = Re.scan ic r 0 s.
Proof. induction a as [|c a IH]; [reflexivity|exact IH]. Qed.

(** At the start of a text that begins with a label, in whatever
    case, the label pattern takes exactly the label. *)
Lemma label_attempt (label s : string) :
  In (Py.lower label) labels ->
  Re.attempt true label_re false (label ++ s) = Some (Some label, s).
Proof.
  intros H. unfold Re.attempt, label_re.
  cbn [Re.alt Re.run andb].
  rewrite !run_lit_nocase by reflexivity.
  rewrite lower_app.
  unfold labels in H. cbn [In] in H.
  destruct H as [H|[H|[H|[H|[H|[H|[]]]]]]];
    (match type of H with
     | ?l = _ =>
         assert (E : String.length l = String.length label)
           by (rewrite H; apply lower_length)
     end);
    rewrite <- H;
    repeat (cbn [append String.prefix];
            match goal with
            | |- context [ascii_dec ?a ?b] =>
                destruct (ascii_dec a b); try congruence
            end);
    rewrite prefix_nil, E, drop_app, consumed_app; reflexivity.
Qed.

Lemma sub_label_head (label s : string) :
  In (Py.lower label) labels ->
  Re.sub true label_re "" (label ++ s) = Re.sub true label_re "" s.
Proof.
  intros H. pose proof (label_attempt label s H) as A.
  assert (N : exists c l, label = String c l).
  { destruct label as [|c l]; [|eauto].
    exfalso. revert H. unfold labels. cbn.
    intros [X|[X|[X|[X|[X|[X|[]]]]]]]; discriminate X. }
  destruct N as (c & l & ->).
  unfold Re.sub. cbn [append Re.scan]. cbn [append] in A. rewrite A.
  change (String c (l ++ s)) with (String c l ++ s)%string.
  rewrite consumed_app. cbn [String.length].
  rewrite scan_skip_app. reflexivity.
Qed.

(** X5: a label at the very start, written in any mix of upper and
    lower case, is dropped: the text with the label and the text
    without it are cleaned to the same result. *)
Theorem clean_drops_leading_label (label s : string) :
  In (Py.lower label) labels ->
  normalize_text (label ++ s) = normalize_text s /\
  clean_phone_number (Some (label ++ s)%string) = clean_phone_number (Some s).
Proof.
  intros H.
  assert (N : normalize_text (label ++ s) = normalize_text s)
    by (unfold normalize_text; rewrite (sub_label_head label s H); reflexivity).
  split; [exact N|].
  unfold clean_phone_number. rewrite N.
  destruct label as [|c l].
  - exfalso. revert H. unfold labels. cbn.
    intros [X|[X|[X|[X|[X|[X|[]]]]]]]; discriminate X.
  - cbn [append Py.truthy negb]. destruct s as [|d s']; [|reflexivity].
    cbn [Py.truthy negb]. vm_compute. reflexivity.
Qed.

(** ** The search for contact pages *)

Section ContactLinks.
Variable urljoin : string -> string -> option string.
Variable base_url : string.

Lemma mem_true_In (x : string) (l : list string) :
  Py.mem x l = true -> In x l.
Proof.
  unfold Py.mem. intros H. apply existsb_exists in H.
  destruct H as (y & I & E). apply String.eqb_eq in E. subst y. exact I.
Qed.

Lemma keywords_loop (link : string * string) (keywords : list string) :
  forall contact_links,
    fold_left
      (fun state keyword =>
         match state with
         | None => None
         | Some contact_links =>
             if Py.contains keyword (Py.lower (fst link))
                || Py.contains keyword (Py.lower (snd link)) then
               match urljoin base_url (fst link) with
               | None => None
               | Some full_url =>
                   if negb (Py.mem full_url contact_links)
                   then Some (contact_links ++ [full_url])
                   else Some contact_links
               end
             else Some contact_links
         end)
      keywords (Some contact_links)
    = if existsb
           (fun keyword =>
              Py.contains keyword (Py.lower (fst link))
              || Py.contains keyword (Py.lower (snd link)))
           keywords
      then match urljoin base_url (fst link) with
           | None => None
           | Some full_url =>
               if Py.mem full_url contact_links then Some contact_links
               else Some (contact_links ++ [full_url])
           end
      else Some contact_links.
Proof.
  induction keywords as [|keyword keywords IH]; intros links; [reflexivity|].
  cbn [fold_left existsb].
  destruct (Py.contains keyword (Py.lower (fst link))
            || Py.contains keyword (Py.lower (snd link))); cbn [orb].
  - destruct (urljoin base_url (fst link)) as [u|] eqn:U.
    + assert (Again : forall l, Py.mem u l = true ->
                (if existsb
                      (fun keyword =>
                         Py.contains keyword (Py.lower (fst link))
                         || Py.contains keyword (Py.lower (snd link)))
                      keywords
                 then if Py.mem u l then Some l else Some (l ++ [u])
                 else Some l) = Some l).
      { intros l M. rewrite M. destruct (existsb _ keywords); reflexivity. }
      destruct (Py.mem u links) eqn:M; cbn [negb]; rewrite IH; rewrite ?U.
      * apply Again, M.
      * apply Again. unfold Py.mem. rewrite existsb_app. cbn.
        rewrite String.eqb_refl, orb_true_r. reflexivity.
    + clear IH. induction keywords as [|k ks IHk]; [reflexivity|exact IHk].
  - apply IH.
Qed.

Lemma links_loop_None (anchors : list (string * string)) :
  fold_left
    (fun state link =>
       fold_left
         (fun state keyword =>
            match state with
            | None => None
            | Some contact_links =>
                if Py.contains keyword (Py.lower (fst link))
                   || Py.contains keyword (Py.lower (snd link)) then
                  match urljoin base_url (fst link) with
                  | None => None
                  | Some full_url =>
                      if negb (Py.mem full_url contact_links)
                      then Some (contact_links ++ [full_url])
                      else Some contact_links
                  end
                else Some contact_links
            end)
         contact_keywords state)
    anchors None = None.
Proof.
  induction anchors as [|link anchors IH]; [reflexivity|].
  cbn [fold_left]. exact IH.
Qed.

Lemma links_loop (anchors : list (string * string)) :
  forall links result,
    NoDup links ->
    fold_left
      (fun state link =>
         fold_left
           (fun state keyword =>
              match state with
              | None => None
              | Some contact_links =>
                  if Py.contains keyword (Py.lower (fst link))
                     || Py.contains keyword (Py.lower (snd link)) then
                    match urljoin base_url (fst link) with
                    | None => None
                    | Some full_url =>
                        if negb (Py.mem full_url contact_links)
                        then Some (contact_links ++ [full_url])
                        else Some contact_links
                    end
                  else Some contact_links
              end)
           contact_keywords state)
      anchors (Some links) = Some result ->
    NoDup result /\
    (forall u, In u links -> In u result) /\
    (forall u, In u result ->
               In u links \/
               exists link, In link anchors /\ contact_link link = true /\
                            urljoin base_url (fst link) = Some u) /\
    (forall link, In link anchors -> contact_link link = true ->
                  exists u, urljoin base_url (fst link) = Some u /\ In u result).
Proof.
  induction anchors as [|link anchors IH]; intros links result ND H.
  - cbn in H. injection H as <-. repeat split; auto. intros link [].
  - cbn [fold_left] in H. rewrite keywords_loop in H.
    fold (contact_link link) in H.
    destruct (contact_link link) eqn:C.
    + destruct (urljoin base_url (fst link)) as [u|] eqn:U;
        [|rewrite links_loop_None in H; discriminate].
      destruct (Py.mem u links) eqn:M.
      * destruct (IH _ _ ND H) as (R1 & R2 & R3 & R4).
        repeat split; auto.
        -- intros x Hx. destruct (R3 x Hx) as [I|(l & I & Cl & Ul)]; auto.
           right. exists l. split; [right; exact I|auto].
        -- intros l [<-|I] Cl; [|exact (R4 l I Cl)].
           exists u. split; [exact U|]. apply R2, mem_true_In, M.
      * assert (ND' : NoDup (links ++ [u])).
        { apply NoDup_app; [exact ND|repeat constructor; intros []|].
          intros x Hx [<-|[]]. exact (mem_false_not_In _ _ M Hx). }
        destruct (IH _ _ ND' H) as (R1 & R2 & R3 & R4).
        repeat split; auto.
        -- intros x Hx. apply R2, in_or_app. auto.
        -- intros x Hx. destruct (R3 x Hx) as [I|(l & I & Cl & Ul)].
           ++ apply in_app_or in I. destruct I as [I|[<-|[]]]; auto.
              right. exists link. split; [left; reflexivity|auto].
           ++ right. exists l. split; [right; exact I|auto].
        -- intros l [<-|I] Cl; [|exact (R4 l I Cl)].
           exists u. split; [exact U|]. apply R2, in_or_app. right. left. reflexivity.
    + destruct (IH _ _ ND H) as (R1 & R2 & R3 & R4).
      repeat split; auto.
      * intros x Hx. destruct (R3 x Hx) as [I|(l & I & Cl & Ul)]; auto.
        right. exists l. split; [right; exact I|auto].
      * intros l [<-|I] Cl; [congruence|exact (R4 l I Cl)].
Qed.

(** X7: when the search for contact pages returns, its list has no
    address twice and holds exactly the joined addresses of the links
    whose [href] or text mentions a keyword, case ignored. *)
Theorem search_contact_pages_links (soup : page) (links : list string) :
  search_contact_pages urljoin base_url soup = Some links ->
  NoDup links /\
  (forall u, In u links <->
             exists link, In link (anchors soup) /\ contact_link link = true /\
                          urljoin base_url (fst link) = Some u).
Proof.
  unfold search_contact_pages. intros H.
  destruct (links_loop (anchors soup) [] links (NoDup_nil _) H)
    as (R1 & _ & R3 & R4).
  split; [exact R1|]. intros u. split.
  - intros I. destruct (R3 u I) as [[]|E]. exact E.
  - intros (link & I & C & U). destruct (R4 link I C) as (u' & U' & I').
    congruence.
Qed.

End ContactLinks.

(** ** The shape of a cleaned number *)

Lemma normalized_valid_is_normal (phone : string) :
  looks_german (normalize_text phone) = true ->
  normal_number (normalize_text phone).
Proof.
  intros G. repeat split.
  - destruct (normalize_text phone) as [|c s] eqn:E.
    + vm_compute in G. discriminate.
    + exists c, s. split; [reflexivity|exact (looks_german_start c s G)].
  - destruct (normalize_text_trimmed phone) as [L T]. apply ok_strip; assumption.
  - unfold normalize_text. apply collapse_ws_plain.
  - unfold normalize_text. apply collapse_ws_single.
Qed.

(** X3: a number that [clean_phone_number] returns passes the
    validation, starts with [+], [(] or a digit, has no white space at
    either end, and has single plain spaces as its only white space. *)
Theorem clean_result_shape (phone : option string) (x : string) :
  clean_phone_number phone = Some x ->
  looks_german x = true /\ normal_number x.
Proof.
  destruct phone as [p|]; [|discriminate]. intros H.
  apply clean_some_inv in H. destruct H as [-> G].
  split; [exact G|apply normalized_valid_is_normal, G].
Qed.

Lemma extract_result_shape (text x : string) :
  In x (extract_phone_from_text text) ->
  looks_german x = true /\ normal_number x.
Proof.
  intros H. apply extract_in_inv in H. destruct H as (phone & -> & G).
  split; [exact G|apply normalized_valid_is_normal, G].
Qed.

Section ScrapeProps.

Variable list_of_set : list string -> list string.
Hypothesis list_of_set_perm :
  forall l, Permutation (list_of_set l) (nodup string_dec l).
Variable world : Type.
Variable http_get : string -> world -> option page * world.
Variable urljoin : string -> string -> option string.

Lemma contact_phones_fetched (links : list string) :
  forall w x,
    In x (fst (contact_phones world http_get links w)) ->
    exists u w0 soup w1,
      http_get u w0 = (Some soup, w1) /\
      In x (extract_phone_from_text (get_text soup)).
Proof.
  induction links as [|u links IH]; intros w x; cbn [contact_phones].
  - intros [].
  - destruct (http_get u w) as [[soup|] w1] eqn:F; [|apply IH].
    destruct (extract_phone_from_text (get_text soup)) as [|y ys] eqn:E;
      [apply IH|].
    cbn [fst]. intros H. exists u, w, soup, w1. rewrite E. auto.
Qed.

Lemma gather_fetched (u : string) (w : world) (found : list string) (w' : world) :
  gather world http_get urljoin u w = (Some found, w') ->
  forall x, In x found ->
    exists u w0 soup w1,
      http_get u w0 = (Some soup, w1) /\
      In x (extract_phone_from_text (get_text soup)).
Proof.
  unfold gather. destruct (http_get u w) as [[soup|] w1] eqn:F; [|discriminate].
  destruct (extract_phone_from_text (get_text soup)) as [|y ys] eqn:E.
  - destruct (search_contact_pages urljoin u soup) as [links|]; [|discriminate].
    pose proof (contact_phones_fetched (firstn 3 links) w1) as C.
    destruct (contact_phones world http_get (firstn 3 links) w1) as [cs w2].
    intros [= <- <-]. exact C.
  - intros [= <- <-] x H. exists u, w, soup, w1. rewrite E. auto.
Qed.

Lemma candidates_fetched (url : string) (w : world) :
  forall x, In x (fst (candidates_found world http_get urljoin url w)) ->
    exists u w0 soup w1,
      http_get u w0 = (Some soup, w1) /\
      In x (extract_phone_from_text (get_text soup)).
Proof.
  unfold candidates_found.
  destruct (gather world http_get urljoin
              (test_url "https://" (with_protocol url)) w)
    as [[found|] w1] eqn:G1.
  - exact (gather_fetched _ _ _ _ G1).
  - destruct (gather world http_get urljoin
                (test_url "http://" (with_protocol url)) w1)
      as [[found|] w2] eqn:G2.
    + exact (gather_fetched _ _ _ _ G2).
    + intros x [].
Qed.

(** What [scrape_website] returns passes the validation and has the
    shape of a cleaned number. *)
Lemma scrape_website_some (url : string) (w : world) (r : string)
      (w' : world) :
  scrape_website list_of_set world http_get urljoin url w = (Some r, w') ->
  looks_german r = true /\ normal_number r.
Proof.
  intros H.
  destruct (scrape_website_spec list_of_set list_of_set_perm world http_get
                                urljoin url w) as [[_ E]|(r' & I & _ & E)];
    rewrite E in H; [discriminate|].
  injection H as -> _.
  destruct (candidates_fetched url w r I) as (u & w0 & soup & w1 & F & X).
  exact (extract_result_shape _ _ X).
Qed.

(** The page a candidate of the contact loop comes from: the link it
    was fetched from, and the state of the world at the request, which
    is the one the requests for the links before it have left. *)
Lemma contact_phones_traced (links : list string) :
  forall w x,
    In x (fst (contact_phones world http_get links w)) ->
    exists before u rest soup,
      links = before ++ u :: rest /\
      http_get u (after_requests http_get before w)
      = (Some soup, snd (contact_phones world http_get links w)) /\
      In x (extract_phone_from_text (get_text soup)).
Proof.
  induction links as [|u links IH]; intros w x; cbn [contact_phones].
  - intros [].
  - destruct (http_get u w) as [[soup|] w1] eqn:F.
    + destruct (extract_phone_from_text (get_text soup)) as [|y ys] eqn:E.
      * intros H. destruct (IH w1 x H) as (before & v & rest & soup2 & L & G & I).
        exists (u :: before), v, rest, soup2. split; [rewrite L; reflexivity|].
        split; [|exact I].
        unfold after_requests. cbn [fold_left]. rewrite F. exact G.
      * cbn [fst snd]. intros H. exists [], u, links, soup.
        split; [reflexivity|]. split; [exact F|]. rewrite E. exact H.
    + intros H. destruct (IH w1 x H) as (before & v & rest & soup2 & L & G & I).
      exists (u :: before), v, rest, soup2. split; [rewrite L; reflexivity|].
      split; [|exact I].
      unfold after_requests. cbn [fold_left]. rewrite F. exact G.
Qed.

(** The same for one turn of the loop over the protocols. *)
Lemma gather_traced (address : string) (w : world) (found : list string)
      (w' : world) :
  gather world http_get urljoin address w = (Some found, w') ->
  forall x, In x found ->
    exists soup w1,
      http_get address w = (Some soup, w1) /\
      (In x (extract_phone_from_text (get_text soup)) /\ w' = w1 \/
       extract_phone_from_text (get_text soup) = [] /\
       exists links before u rest soup2,
         search_contact_pages urljoin address soup = Some links /\
         firstn 3 links = before ++ u :: rest /\
         http_get u (after_requests http_get before w1) = (Some soup2, w') /\
         In x (extract_phone_from_text (get_text soup2))).
Proof.
  unfold gather.
  destruct (http_get address w) as [[soup|] w1] eqn:F; [|discriminate].
  destruct (extract_phone_from_text (get_text soup)) as [|y ys] eqn:E.
  - destruct (search_contact_pages urljoin address soup) as [links|] eqn:S;
      [|discriminate].
    pose proof (contact_phones_traced (firstn 3 links) w1) as C.
    destruct (contact_phones world http_get (firstn 3 links) w1) as [cs w2].
    cbn [fst snd] in C. intros [= <- <-] x H.
    destruct (C x H) as (before & u & rest & soup2 & L & G & I).
    exists soup, w1. split; [reflexivity|]. right. split; [exact E|].
    exists links, before, u, rest, soup2. auto.
  - intros [= <- <-] x H. exists soup, w1. split; [reflexivity|]. left.
    rewrite E. auto.
Qed.

(** A turn that raises leaves the world as the request for the main
    page left it. *)
Lemma gather_raised (address : string) (w w' : world) :
  gather world http_get urljoin address w = (None, w') ->
  w' = snd (http_get address w).
Proof.
  unfold gather.
  destruct (http_get address w) as [[soup|] w1]; [|intros [= <-]; reflexivity].
  destruct (extract_phone_from_text (get_text soup)) as [|y ys];
    [|discriminate].
  destruct (search_contact_pages urljoin address soup) as [links|].
  - destruct (contact_phones world http_get (firstn 3 links) w1).
    discriminate.
  - intros [= <-]. reflexivity.
Qed.

(** X9: a number that [scrape_website] returns was extracted from a
    page fetched in this very call: from the main page of the site,
    requested under https in the state the call started in, or under
    http in the state the failed https request left; or, when that
    main page had no number, from one of its first three contact
    links, requested in the state the requests for the links before it
    left.  The world the call leaves is the one that request left.
    The number passes the validation and has the shape of a cleaned
    number. *)
Theorem scrape_website_result (url : string) (w : world) (r : string)
        (w' : world) :
  scrape_website list_of_set world http_get urljoin url w = (Some r, w') ->
  (exists protocol w0 soup w1,
      (protocol = "https://" /\ w0 = w \/
       protocol = "http://" /\
       w0 = snd (http_get (test_url "https://" (with_protocol url)) w)) /\
      http_get (test_url protocol (with_protocol url)) w0 = (Some soup, w1) /\
      (In r (extract_phone_from_text (get_text soup)) /\ w' = w1 \/
       extract_phone_from_text (get_text soup) = [] /\
       exists links before u rest soup2,
         search_contact_pages urljoin (test_url protocol (with_protocol url))
                              soup = Some links /\
         firstn 3 links = before ++ u :: rest /\
         http_get u (after_requests http_get before w1) = (Some soup2, w') /\
         In r (extract_phone_from_text (get_text soup2)))) /\
  looks_german r = true /\
  normal_number r.
Proof.
  intros H. split; [|exact (scrape_website_some url w r w' H)].
  destruct (scrape_website_spec list_of_set list_of_set_perm world http_get
                                urljoin url w) as [[_ E]|(r' & I & _ & E)];
    rewrite E in H; [discriminate|].
  injection H as -> <-. clear E. revert I. unfold candidates_found.
  destruct (gather world http_get urljoin
              (test_url "https://" (with_protocol url)) w)
    as [[found|] w1] eqn:G1; cbn [fst snd].
  - intros I.
    destruct (gather_traced _ _ _ _ G1 r I) as (soup & w2 & F & T).
    exists "https://", w, soup, w2. auto.
  - apply gather_raised in G1. subst w1.
    destruct (gather world http_get urljoin
                (test_url "http://" (with_protocol url))
                (snd (http_get (test_url "https://" (with_protocol url)) w)))
      as [[found|] w2] eqn:G2; cbn [fst snd]; [|intros []].
    intros I.
    destruct (gather_traced _ _ _ _ G2 r I) as (soup & w3 & F & T).
    exists "http://",
           (snd (http_get (test_url "https://" (with_protocol url)) w)),
           soup, w3.
    auto.
Qed.

End ScrapeProps.

(** ** The two addresses tried for a site *)

Lemma prefix_app (p s : string) : String.prefix p (p ++ s) = true.
Proof.
  induction p as [|c p IH]; [destruct s; reflexivity|].
  cbn [append String.prefix]. destruct (ascii_dec c c); [exact IH|congruence].
Qed.

(** X8: the first attempt always goes to an [https://] address; and
    for a site not given with [http://] the second attempt goes to the
    very same address as the first. *)
Theorem attempts_use_https (url : string) :
  Py.startswith (test_url "https://" (with_protocol url)) "https://" = true /\
  (Py.startswith url "http://" = false ->
   test_url "http://" (with_protocol url)
   = test_url "https://" (with_protocol url)).
Proof.
  unfold test_url, with_protocol, Py.startswith.
  destruct (String.prefix "https://" url) eqn:S.
  - rewrite orb_true_r. cbv iota. rewrite S. cbv iota.
    split; [exact S|]. intros _. reflexivity.
  - rewrite orb_false_r. destruct (String.prefix "http://" url) eqn:P.
    + cbv iota. rewrite S. cbv iota. split; [apply prefix_app|discriminate].
    + cbv iota. rewrite (prefix_app "https://" url). cbv iota.
      split; [apply prefix_app|]. intros _. reflexivity.
Qed.

(** ** The loop of [process_csv] *)

Section LoopProps.

Variable list_of_set : list string -> list string.
Variable world : Type.
Variable http_get : string -> world -> option page * world.
Variable urljoin : string -> string -> option string.

Lemma appended_row (results : list (list string)) (n s : string)
      (phone : option string) :
  exists p,
    match phone with
    | Some p => if Py.truthy p then results ++ [[n; s; p]]
                else results ++ [[n; s; ""]]
    | None => results ++ [[n; s; ""]]
    end = results ++ [[n; s; p]] /\
    (phone = None /\ p = "" \/ phone = Some p).
Proof.
  destruct phone as [p|]; [|exists ""; auto].
  destruct p as [|c p]; [exists ""; auto|exists (String c p); auto].
Qed.

(** X10: the loop adds one row of three fields for each input row
    whose trimmed name and site are both non-empty and that comes
    before the first row too short to reach both columns, in order,
    with the trimmed name and site in the first two fields; the other
    input rows add nothing.  The loop ends normally when every row
    reaches both columns, and is left by [AttributeError] at the first
    row that does not. *)
Theorem process_rows_accounting (rows : list (option string * option string)) :
  forall i results output w,
  exists new,
    fst (fst (fst (process_rows list_of_set world http_get urljoin
                                rows i results output w)))
    = results ++ new /\
    Forall (fun row => List.length row = 3) new /\
    map (firstn 2) new
    = map (fun row => [Py.strip (fst row); Py.strip (snd row)])
          (filter usable_row (leading_rows rows)) /\
    snd (process_rows list_of_set world http_get urljoin
                      rows i results output w)
    = if all_complete rows then None else Some AttributeError.
Proof.
  induction rows as [|row rows IH]; intros i results output w.
  - exists []. cbn. rewrite app_nil_r. auto.
  - destruct row as [[name|] [site|]];
      cbn [process_rows leading_rows all_complete forallb fst snd andb];
      try solve [exists []; cbn; rewrite app_nil_r; auto].
    fold (all_complete rows). cbn [filter]. unfold usable_row at 1.
    cbn [fst snd].
    destruct (Py.truthy (Py.strip name)); cbn [negb orb andb]; [|apply IH].
    destruct (Py.truthy (Py.strip site)); cbn [negb]; [|apply IH].
    destruct (scrape_website list_of_set world http_get urljoin
                             (Py.strip site) w) as [phone w1].
    destruct (appended_row results (Py.strip name) (Py.strip site) phone)
      as (p & -> & _).
    match goal with
    | |- context [process_rows _ _ _ _ _ ?i' ?r' ?o' ?w'] =>
        destruct (IH i' r' o' w') as (new & E & F & M & X)
    end.
    exists ([Py.strip name; Py.strip site; p] :: new).
    rewrite E, <- app_assoc. split; [reflexivity|]. split; [|split].
    + constructor; [reflexivity|exact F].
    + rewrite map_cons, M. reflexivity.
    + exact X.
Qed.



End LoopProps.

(** ** Saving and reading any table *)

(** X13: a table whose rows have at least two fields, none of them
    longer than the field size limit of the reader once its line
    breaks are read as line feeds, saved and read back, gives its rows
    one by one and then the end of the file; each row comes under the
    three column names, with a missing third field as [None], with the
    fields beyond the third in a list under the key [None], and with
    the line breaks inside the fields read as line feeds, whatever
    commas, quotes or line breaks the fields contain. *)
Theorem save_results_round_trip (results : list (list string)) :
  Forall (fun row =>
            2 <= List.length row /\
            Forall (fun f => within_limit (Csv.universal_newlines f)) row)
         results ->
  read_back (save_results results)
  = (map (fun row =>
            Csv.dict_row ["company_name"; "website"; "phone"]
                         (map Csv.universal_newlines row))
         results,
     Csv.EndOfFile).
Proof. apply read_back_save_results. Qed.

(** ** The selector when every candidate is a mobile number *)

Section MoreProps.

Variable list_of_set : list string -> list string.
Hypothesis list_of_set_perm :
  forall l, Permutation (list_of_set l) (nodup string_dec l).
Variable world : Type.
Variable http_get : string -> world -> option page * world.
Variable urljoin : string -> string -> option string.

(** X6: when every candidate starts with "01", the selector returns
    the first candidate of the enumeration. *)
Theorem select_all_mobile (phones : list string) :
  phones <> [] ->
  (forall p, In p phones -> Py.startswith p "01" = true) ->
  exists first rest,
    list_of_set phones = first :: rest /\
    select_best_phone list_of_set phones = Returned (Some first).
Proof.
  intros Hne Hall.
  destruct (select_cases list_of_set list_of_set_perm phones Hne)
    as [(r & F & _)|(r & rest & _ & U & S)].
  - exfalso. apply find_some in F. destruct F as [Fi Fl].
    apply (proj1 (list_of_set_In list_of_set list_of_set_perm _ _)) in Fi.
    rewrite (Hall r Fi) in Fl. discriminate.
  - exists r, rest. auto.
Qed.

(** ** What the loop writes in the phone column *)

Lemma process_rows_cells (rows : list (option string * option string)) :
  forall i results output w,
  exists new,
    fst (fst (fst (process_rows list_of_set world http_get urljoin
                                rows i results output w)))
    = results ++ new /\
    Forall (fun row => exists n s p, row = [n; s; p] /\ phone_cell p) new.
Proof.
  induction rows as [|row rows IH]; intros i results output w.
  - exists []. cbn. rewrite app_nil_r. auto.
  - destruct row as [[name|] [site|]]; cbn [process_rows fst snd];
      try solve [exists []; cbn; rewrite app_nil_r; auto].
    destruct (negb (Py.truthy (Py.strip name))
              || negb (Py.truthy (Py.strip site))); [apply IH|].
    pose proof (scrape_website_some list_of_set list_of_set_perm world
                                    http_get urljoin (Py.strip site) w)
      as S.
    destruct (scrape_website list_of_set world http_get urljoin
                             (Py.strip site) w) as [phone w1].
    destruct (appended_row results (Py.strip name) (Py.strip site) phone)
      as (p & -> & P).
    match goal with
    | |- context [process_rows _ _ _ _ _ ?i' ?r' ?o' ?w'] =>
        destruct (IH i' r' o' w') as (new & E & F)
    end.
    exists ([Py.strip name; Py.strip site; p] :: new).
    rewrite E, <- app_assoc. split; [reflexivity|].
    constructor; [|exact F]. eexists _, _, p. split; [reflexivity|].
    destruct P as [[_ ->]| ->]; [left; reflexivity|right].
    exact (S p w1 eq_refl).
Qed.

(** X12: the loop keeps the results well formed, however it is left:
    every row has three fields, and the phone field is empty or a
    number that passes the validation and has the shape of a cleaned
    number. *)
Theorem written_phones_are_valid
        (rows : list (option string * option string)) (i : nat)
        (results : list (list string)) (output : option string) (w : world) :
  Forall (fun row => exists n s p, row = [n; s; p] /\ phone_cell p) results ->
  Forall (fun row => exists n s p, row = [n; s; p] /\ phone_cell p)
         (fst (fst (fst (process_rows list_of_set world http_get urljoin
                                      rows i results output w)))).
Proof.
  intros H. destruct (process_rows_cells rows i results output w)
    as (new & -> & F).
  apply Forall_app. auto.
Qed.

(** ** The summary of [main] *)



End MoreProps.

(** ** The properties above on concrete inputs *)

Lemma candidates_never_mention_fax_witness :
  all_chars phone_alphabet "089-123-9999" = true /\
  Py.contains "fax" (Py.lower "089-123-9999") = false.
Proof.
  apply (candidates_never_mention_fax "Fax: 089-123-9999").
  vm_compute. left. reflexivity.
Defined.

Lemma clean_result_shape_witness :
  looks_german "+49 89 1234567" = true /\ normal_number "+49 89 1234567".
Proof.
  apply (clean_result_shape (Some "tel:  +49 (0) 89 1234567 ")).
  vm_compute. reflexivity.
Defined.

Lemma validation_ignores_tail_witness :
  looks_german ("089-123-4567" ++ " und mehr") = true.
Proof.
  apply (validation_ignores_tail "089-123-4567" " und mehr").
  vm_compute. reflexivity.
Defined.

Lemma clean_drops_leading_label_witness :
  normalize_text ("Tel." ++ " 089-123-4567") = normalize_text " 089-123-4567" /\
  clean_phone_number (Some ("Tel." ++ " 089-123-4567")%string)
  = clean_phone_number (Some " 089-123-4567").
Proof.
  apply (clean_drops_leading_label "Tel." " 089-123-4567").
  vm_compute. right. right. right. left. reflexivity.
Defined.

Lemma select_all_mobile_witness :
  exists first rest,
    nodup string_dec ["0151 1234567"; "0160 7654321"] = first :: rest /\
    select_best_phone (nodup string_dec) ["0151 1234567"; "0160 7654321"]
    = Returned (Some first).
Proof.
  apply (select_all_mobile (nodup string_dec)).
  - intros l. apply Permutation_refl.
  - discriminate.
  - intros p [<-|[<-|[]]]; reflexivity.
Defined.

Lemma search_contact_pages_links_witness :
  NoDup ["https://a.example/kontakt"; "/impressum"] /\
  (forall u,
      In u ["https://a.example/kontakt"; "/impressum"] <->
      exists link,
        In link [("https://a.example/kontakt", "Kontakt"); ("/", "Start");
                 ("/impressum", "Rechtliches"); ("/impressum", "Impressum")] /\
        contact_link link = true /\
        (fun base href : string => Some href) "https://a.example" (fst link)
        = Some u).
Proof.
  apply (search_contact_pages_links
           (fun base href => Some href) "https://a.example"
           {| get_text := "";
              anchors := [("https://a.example/kontakt", "Kontakt");
                          ("/", "Start");
                          ("/impressum", "Rechtliches");
                          ("/impressum", "Impressum")] |}).
  vm_compute. reflexivity.
Defined.

Lemma scrape_website_result_witness :
  (exists protocol w0 soup w1,
      (protocol = "https://" /\ w0 = tt \/
       protocol = "http://" /\
       w0 = snd (example_web (test_url "https://" (with_protocol "a.example"))
                             tt)) /\
      example_web (test_url protocol (with_protocol "a.example")) w0
      = (Some soup, w1) /\
      (In "030 9999999" (extract_phone_from_text (get_text soup)) /\ tt = w1 \/
       extract_phone_from_text (get_text soup) = [] /\
       exists links before u rest soup2,
         search_contact_pages (fun base href => Some href)
                              (test_url protocol (with_protocol "a.example"))
                              soup = Some links /\
         firstn 3 links = before ++ u :: rest /\
         example_web u (after_requests example_web before w1)
         = (Some soup2, tt) /\
         In "030 9999999" (extract_phone_from_text (get_text soup2)))) /\
  looks_german "030 9999999" = true /\
  normal_number "030 9999999".
Proof.
  apply (scrape_website_result (nodup string_dec)
           (fun l => Permutation_refl _) unit example_web
           (fun base href => Some href) "a.example" tt "030 9999999" tt).
  vm_compute. reflexivity.
Defined.

Lemma written_phones_are_valid_witness :
  Forall (fun row => exists n s p, row = [n; s; p] /\ phone_cell p)
         (fst (fst (fst (process_rows (nodup string_dec) unit example_web
                                      (fun base href => Some href)
                                      [(Some "A GmbH", Some "a.example");
                                       (Some "B AG", Some "b.example");
                                       (Some "C KG", None)]
                                      1 [] None tt)))).
Proof.
  apply (written_phones_are_valid (nodup string_dec)).
  - intros l. apply Permutation_refl.
  - constructor.
Defined.

Lemma save_results_round_trip_witness :
  read_back (save_results [["A, B GmbH"; "a.example"; "030 9999999"; "x"]])
  = (map (fun row =>
            Csv.dict_row ["company_name"; "website"; "phone"]
                         (map Csv.universal_newlines row))
         [["A, B GmbH"; "a.example"; "030 9999999"; "x"]],
     Csv.EndOfFile).
Proof.
  apply (save_results_round_trip
           [["A, B GmbH"; "a.example"; "030 9999999"; "x"]]).
  repeat constructor; vm_compute; discriminate.
Defined.


(** The summary on the files of three runs: one that finds a number
    for one organization of two, one that deals with no organization,
    and the file of a table that has a row too short to reach the
    phone column. *)
Example main_summary_example :
  option_map main_summary
    (fst (fst (process_csv (nodup string_dec) unit example_web
                           (fun base href => Some href)
                           (map full_row
                                [("A GmbH", "a.example"); ("B AG", "b.example");
                                 ("", "c.example")])
                           None tt)))
  = Some (Some (2, 1), None) /\
  option_map main_summary
    (fst (fst (process_csv (nodup string_dec) unit example_web
                           (fun base href => Some href)
                           (map full_row [("", "c.example")]) None tt)))
  = Some (Some (0, 0), Some ZeroDivisionError) /\
  main_summary (save_results [["A GmbH"]]) = (None, Some AttributeError).
Proof. repeat split; vm_compute; reflexivity. Qed.
(** ** A number longer than the reader accepts *)
























(** *** The reader on a field that is too long *)







